(** * XplainIQ Lite: the scoring and insight engine of [XplainIQLite.py]

    A shallow embedding of the pure helpers of the Streamlit application
    ([tier_for], [compute_scores], [derive_strengths_gaps],
    [recommend_actions]) together with the constant tables they read
    ([PILLARS], [TIER_BANDS], the playbook).

    Python values are modelled as follows.
    - [int] is [Z] (unbounded).
    - [float] is an IEEE-754 binary64 number, taken from the Standard
      Library's [SpecFloat] with [prec = 53] and [emax = 1024]; every
      arithmetic operation rounds to nearest, ties to even, as the hardware
      does for CPython.
    - [dict] with string keys is stdpp's [gmap string _].
    - a raised exception is the [Raise] outcome of the [result] monad. *)

From Stdlib Require Import ZArith Ascii String Floats.SpecFloat.
From stdpp Require Import gmap strings list fin_maps sorting pretty.

Open Scope Z_scope.

(** ** Exceptions *)

Inductive py_error : Set :=
  | ZeroDivisionError
  | OverflowError
  | ValueError.

Inductive result (A : Type) : Type :=
  | Ok (a : A)
  | Raise (e : py_error).
Arguments Ok {A} a.
Arguments Raise {A} e.

#[global] Instance result_ret : MRet result := @Ok.
#[global] Instance result_bind : MBind result := fun A B f m =>
  match m with
  | Ok a => f a
  | Raise e => Raise e
  end.

(** ** Binary64 arithmetic *)

Module F64.

Definition prec : Z := 53.
Definition emax : Z := 1024.

Definition float : Set := spec_float.

Definition add : float -> float -> float := SFadd prec emax.
Definition mul : float -> float -> float := SFmul prec emax.
Definition div : float -> float -> float := SFdiv prec emax.
Definition ltb : float -> float -> bool := SFltb.
Definition leb : float -> float -> bool := SFleb.
Definition eqb : float -> float -> bool := SFeqb.

Definition is_nan (x : float) : bool :=
  match x with S754_nan => true | _ => false end.

Definition is_infinity (x : float) : bool :=
  match x with S754_infinity _ => true | _ => false end.

(** [float(n)] for an [int] that fits: the nearest double. *)
Definition of_Z (n : Z) : float := binary_normalize prec emax n 0 false.

(** The integer [n] as an exact (unrounded) operand. *)
Definition exact_Z (n : Z) : float :=
  match n with
  | Z0 => S754_zero false
  | Zpos p => S754_finite false p 0
  | Zneg p => S754_finite true p 0
  end.

(** [a / b] on two [int]s: the exact quotient rounded once to the nearest
    double; CPython raises instead of returning an infinity. *)
Definition int_truediv (a b : Z) : result float :=
  if b =? 0 then Raise ZeroDivisionError
  else
    let q := div (exact_Z a) (exact_Z b) in
    if is_infinity q then Raise OverflowError else Ok q.

(** [x / n] for a [float] x and an [int] n. *)
Definition float_div_int (x : float) (n : Z) : result float :=
  if n =? 0 then Raise ZeroDivisionError else Ok (div x (of_Z n)).

(** Nearest integer of [m * 2^e], ties to the even one. *)
Definition round_half_even (m : positive) (e : Z) : Z :=
  match e with
  | Zneg p =>
      let d := Z.pow_pos 2 p in
      let q := Zpos m / d in
      let r := Zpos m mod d in
      match 2 * r ?= d with
      | Lt => q
      | Gt => q + 1
      | Eq => if Z.even q then q else q + 1
      end
  | _ => Zpos m * 2 ^ e
  end.

(** The builtin [round(x)] with one argument. *)
Definition py_round (x : float) : result Z :=
  match x with
  | S754_nan => Raise ValueError
  | S754_infinity _ => Raise OverflowError
  | S754_zero _ => Ok 0
  | S754_finite s m e => Ok (cond_Zopp s (round_half_even m e))
  end.

(** The builtin [sum] over floats: the accumulator starts at the [int] 0
    and each item is added in turn.  (From CPython 3.12 on a compensation
    term is carried along; it is zero whenever every partial sum is exact.) *)
Definition py_sum (xs : list float) : float :=
  fold_left add xs (of_Z 0).

(** *** The order of the numbers

    [SFcompare] orders the floats that are not NaN like the lexicographic
    order on a triple: class and sign, exponent, mantissa. *)

Definition number (x : float) : Prop := is_nan x = false.

Definition rank (x : float) : Z * Z * Z :=
  match x with
  | S754_nan => (0, 0, 0)
  | S754_zero _ => (0, 0, 0)
  | S754_infinity true => (-2, 0, 0)
  | S754_infinity false => (2, 0, 0)
  | S754_finite true m e => (-1, - e, Zneg m)
  | S754_finite false m e => (1, e, Zpos m)
  end.

Definition lex_lt (a b : Z * Z * Z) : Prop :=
  a.1.1 < b.1.1 \/
  (a.1.1 = b.1.1 /\ (a.1.2 < b.1.2 \/ (a.1.2 = b.1.2 /\ a.2 < b.2))).

End F64.

Abbreviation float := F64.float.

Definition f0 : float := Eval vm_compute in F64.of_Z 0.
Definition f5 : float := Eval vm_compute in F64.of_Z 5.
Definition f100 : float := Eval vm_compute in F64.of_Z 100.

(** ** Pillars and questions *)

Definition pillar : Type := string * list string.

Definition PILLARS : list pillar :=
  [ ("A. Channel Strategy & Alignment", ["A1"; "A2"]);
    ("B. Partner Program Design", ["B1"; "B2"]);
    ("C. Partner Enablement & Engagement", ["C1"; "C2"]);
    ("D. Sales & Operations Integration", ["D1"; "D2"]);
    ("E. Growth Readiness", ["E1"; "E2"]) ]%string.

Definition tier_band : Type := string * Z * Z.

Definition TIER_BANDS : list tier_band :=
  [ ("Emerging"%string, 0, 39);
    ("Developing"%string, 40, 59);
    ("Established"%string, 60, 79);
    ("Optimized"%string, 80, 100) ].

Definition band_name (b : tier_band) : string := b.1.1.
Definition band_lo (b : tier_band) : Z := b.1.2.
Definition band_hi (b : tier_band) : Z := b.2.

(** [lo <= s <= hi] *)
Definition in_band (s : Z) (b : tier_band) : bool :=
  (band_lo b <=? s) && (s <=? band_hi b).

(** ** Helpers *)

(** The loop of [tier_for] over a table of bands: the first band that holds
    [s] wins, and the fall-through returns the label "Unknown". *)
Fixpoint tier_lookup (bands : list tier_band) (s : Z) : string :=
  match bands with
  | [] => "Unknown"
  | b :: rest => if in_band s b then band_name b else tier_lookup rest s
  end.

Definition tier_for (score : float) : result string :=
  s ← F64.py_round score;
  mret (tier_lookup TIER_BANDS s).

(** A computed pillar: [(pname, pscore, dict(zip(qids, vals)))]. *)
Definition pillar_score : Type := string * float * gmap string Z.

Definition ps_name (p : pillar_score) : string := p.1.1.
Definition ps_score (p : pillar_score) : float := p.1.2.
Definition ps_detail (p : pillar_score) : gmap string Z := p.2.

(** [dict(pairs)]: a later pair overwrites an earlier one with the same key. *)
Definition dict_of_pairs {V} (kvs : list (string * V)) : gmap string V :=
  fold_left (fun d kv => <[kv.1 := kv.2]> d) kvs ∅.

(** [[int(answers.get(q, 0)) for q in qids]] *)
Definition gather (answers : gmap string Z) (qids : list string) : list Z :=
  (fun q => default 0 (answers !! q)) <$> qids.

Definition sum_Z (vals : list Z) : Z := fold_left Z.add vals 0.

Definition all_zero (vals : list Z) : bool := forallb (fun v => v =? 0) vals.

Definition is_empty {A} (l : list A) : bool :=
  match l with [] => true | _ => false end.

(** The [if]/[else] that assigns [pscore]. *)
Definition pscore_of (vals : list Z) : result float :=
  if is_empty vals || all_zero vals then mret f0
  else
    mean ← F64.int_truediv (sum_Z vals) (Z.of_nat (length vals));
    mret (F64.mul (F64.div mean f5) f100).

(** One turn of the loop of [compute_scores]. *)
Definition score_pillar (answers : gmap string Z) (p : pillar) : result pillar_score :=
  let vals := gather answers p.2 in
  pscore ← pscore_of vals;
  mret (p.1, pscore, dict_of_pairs (zip p.2 vals)).

(** [compute_scores] with the global [PILLARS] as a parameter. *)
Definition compute_scores_in (catalog : list pillar) (answers : gmap string Z)
  : result (list pillar_score * float) :=
  pillar_scores ← mapM (score_pillar answers) catalog;
  overall ← F64.float_div_int (F64.py_sum (ps_score <$> pillar_scores))
                              (Z.of_nat (length pillar_scores));
  mret (pillar_scores, overall).

Definition compute_scores (answers : gmap string Z) : result (list pillar_score * float) :=
  compute_scores_in PILLARS answers.

(** ** Sorting

    [sorted(l, key=..., reverse=...)] compares keys with [<] only and is
    stable.  On keys that [<] orders totally the outcome of a stable sort is
    unique, so the algorithm chosen here (insertion from the right) returns
    what CPython's merge sort returns.  With [reverse=True] CPython reverses
    the list, sorts it, and reverses the outcome, which is what keeps equal
    keys in their original order.  With a NaN among the keys [<] is no such
    order and the two algorithms may part; every statement below about the
    order of a sorted list assumes [numbers]. *)

Section Sorting.
Context {A : Type} (key : A -> float).

Fixpoint insert_sorted (x : A) (l : list A) : list A :=
  match l with
  | [] => [x]
  | y :: l' =>
      if F64.ltb (key y) (key x) then y :: insert_sorted x l' else x :: l
  end.

Definition stable_sort (l : list A) : list A := foldr insert_sorted [] l.

Definition py_sorted (reversed : bool) (l : list A) : list A :=
  if reversed then reverse (stable_sort (reverse l)) else stable_sort l.

(** No key of the list is NaN. *)
Definition numbers (l : list A) : Prop :=
  Forall (fun a => F64.number (key a)) l.

(** [a] may stand before [b] in ascending order: not [key b < key a]. *)
Definition key_le (a b : A) : Prop := F64.ltb (key b) (key a) = false.

(** The key of [a] compares equal to [k]. *)
Definition has_key (k : float) (a : A) : Prop := F64.eqb (key a) k = true.

#[global] Instance has_key_dec k a : Decision (has_key k a).
Proof. unfold has_key. apply _. Defined.
End Sorting.

(** [l[-n:]] *)
Definition last_n {A} (n : nat) (l : list A) : list A :=
  drop (length l - n)%nat l.

(** ** Insights *)

Definition derive_strengths_gaps (ps : list pillar_score) : list string * list string :=
  let sorted_p := py_sorted ps_score true ps in
  let strengths := ps_name <$> take 2 sorted_p in
  let gaps := ps_name <$> last_n 3 sorted_p in
  (strengths, gaps).

Definition playbook : gmap string string :=
  dict_of_pairs
    [ ("A. Channel Strategy & Alignment",
       "Clarify the partner role by segment and set a 12-month channel thesis with 3 measurable outcomes.");
      ("B. Partner Program Design",
       "Publish a simple one-pager: tiers, incentives, rules of engagement, and co-marketing paths.");
      ("C. Partner Enablement & Engagement",
       "Stand up a 30-60-90 enablement cadence: onboarding kit, monthly enablement call, quarterly MDF campaign.");
      ("D. Sales & Operations Integration",
       "Separate channel pipeline tracking; define lead routing/quoting SLAs; add ‘channel’ to forecast reviews.");
      ("E. Growth Readiness",
       "Baseline partner P&L and capacity; set tooling minimums (PRM/CRM views) and resource triggers for 2–3× growth.") ]%string.

(** [str.lower] on strings of ASCII characters, as the names and the ids of
    the catalog are: the letters A to Z are lowered and every other byte is
    kept.  ([str.lower] also lowers the cased characters beyond ASCII.) *)
Definition lower_ascii (c : ascii) : ascii :=
  let n := nat_of_ascii c in
  if ((65 <=? n) && (n <=? 90))%nat then ascii_of_nat (n + 32) else c.

Fixpoint lower (s : string) : string :=
  match s with
  | EmptyString => EmptyString
  | String c s' => String (lower_ascii c) (lower s')
  end.

Definition generic_action (pname : string) : string :=
  ("Prioritize foundational improvements in " +:+ lower pname +:+ " to enable scale.")%string.

(** [playbook.get(p[0], f"...")] *)
Definition action_for (p : pillar_score) : string :=
  default (generic_action (ps_name p)) (playbook !! ps_name p).

Definition recommend_actions (ps : list pillar_score) : list string :=
  let lows := take 3 (py_sorted ps_score false ps) in
  action_for <$> lows.

(** ** Notions of the specification *)

(** A score in [[0,100]]. *)
Definition in_percent_range (x : float) : Prop :=
  F64.leb f0 x = true /\ F64.leb x f100 = true.

(** The value the specification reads for a question: the answer as it was
    given, 0 for a question without an answer. *)
Definition answer_read (answers : gmap string Z) (q : string) : Z :=
  match answers !! q with
  | Some v => v
  | None => 0
  end.

(** The values read for the questions of a pillar, in their order. *)
Fixpoint answers_read (answers : gmap string Z) (qids : list string) : list Z :=
  match qids with
  | [] => []
  | q :: qids' => answer_read answers q :: answers_read answers qids'
  end.

(** The sum of a list of answers. *)
Fixpoint sum_answers (vals : list Z) : Z :=
  match vals with
  | [] => 0
  | v :: vals' => v + sum_answers vals'
  end.

(** The specification's formula for a pillar:
    [(sum of answers / count of questions) / 5.0 * 100.0]. *)
Definition mean_percent (vals : list Z) : result float :=
  mean ← F64.int_truediv (sum_answers vals) (Z.of_nat (length vals));
  mret (F64.mul (F64.div mean f5) f100).

(** The pillar scores an outcome holds; none for an exception. *)
Definition returned_pillars (r : result (list pillar_score * float)) : list pillar_score :=
  match r with
  | Ok (ps, _) => ps
  | Raise _ => []
  end.

(** The specification's gaps: the first three pillars of the stable
    ascending sort. *)
Definition gaps_ascending (ps : list pillar_score) : list string :=
  ps_name <$> take 3 (py_sorted ps_score false ps).

(** The scenario of the specification's testable properties. *)
Definition scenario : gmap string Z :=
  dict_of_pairs
    [ ("A1", 5); ("A2", 5); ("B1", 1); ("B2", 1); ("C1", 3); ("C2", 3);
      ("D1", 3); ("D2", 3); ("E1", 1); ("E2", 1) ]%string.

(** Two answers above the scale. *)
Definition above_scale : gmap string Z :=
  dict_of_pairs [ ("A1", 10); ("A2", 10) ]%string.

(** A catalog whose second pillar has no question. *)
Definition sparse_catalog : list pillar :=
  [ ("A. Channel Strategy & Alignment", ["A1"; "A2"]);
    ("X. Not yet defined", []) ]%string.

(** The pillar scores of the scenario. *)
Definition scenario_scores : list pillar_score :=
  [ ("A. Channel Strategy & Alignment"%string, F64.of_Z 100,
     dict_of_pairs [("A1", 5); ("A2", 5)]%string);
    ("B. Partner Program Design"%string, F64.of_Z 20,
     dict_of_pairs [("B1", 1); ("B2", 1)]%string);
    ("C. Partner Enablement & Engagement"%string, F64.of_Z 60,
     dict_of_pairs [("C1", 3); ("C2", 3)]%string);
    ("D. Sales & Operations Integration"%string, F64.of_Z 60,
     dict_of_pairs [("D1", 3); ("D2", 3)]%string);
    ("E. Growth Readiness"%string, F64.of_Z 20,
     dict_of_pairs [("E1", 1); ("E2", 1)]%string) ].

(** [a] scores at least as much as [b]. *)
Definition scores_ge (a b : pillar_score) : Prop :=
  F64.leb (ps_score b) (ps_score a) = true.

(** [a] scores at most as much as [b]. *)
Definition scores_le (a b : pillar_score) : Prop :=
  F64.leb (ps_score a) (ps_score b) = true.

(** Only the first pillar and half of the third are answered. *)
Definition half_answered : gmap string Z :=
  dict_of_pairs [ ("A1", 4); ("A2", 2); ("C1", 3) ]%string.

(** What [compute_scores] returns for a pillar on answers of the scale:
    the name, the score as the integer [10 * sum], and the detail. *)
Definition scored_exactly (answers : gmap string Z) (pl : pillar) (p : pillar_score) : Prop :=
  p = (pl.1, F64.of_Z (10 * sum_Z (gather answers pl.2)),
       dict_of_pairs (zip pl.2 (gather answers pl.2))).

(** Equality of two floats as data. *)
Definition same_float (x y : float) : bool :=
  match x, y with
  | S754_zero s1, S754_zero s2 => Bool.eqb s1 s2
  | S754_infinity s1, S754_infinity s2 => Bool.eqb s1 s2
  | S754_nan, S754_nan => true
  | S754_finite s1 m1 e1, S754_finite s2 m2 e2 =>
      Bool.eqb s1 s2 && (m1 =? m2)%positive && (e1 =? e2)
  | _, _ => false
  end.

(** ** The page: questions, prefill, upload and sliders *)

(** The dict [QUESTIONS]; its order is the order of iteration. *)
Definition QUESTIONS : list (string * string) :=
  [ ("A1", "Do you have a clearly defined purpose for selling through partners (beyond revenue expansion)?");
    ("A2", "Are your target partner types (TSD, VAR, MSP, SI, etc.) well-defined and prioritized?");
    ("B1", "Do you have a partner program with tiering, incentives, rules of engagement, or performance criteria?");
    ("B2", "Can you clearly articulate what makes your offer unique and profitable for partners?");
    ("C1", "Do you provide training, sales playbooks, or co-branded marketing assets?");
    ("C2", "How consistently do you communicate and collaborate with active partners?");
    ("D1", "Are internal sales/ops aligned to support channel transactions (quoting, order flow, support)?");
    ("D2", "Do you track partner pipeline separately with forecast accuracy goals?");
    ("E1", "Does senior leadership actively sponsor the channel model?");
    ("E2", "Are tools, systems, and staffing sufficient to support 2–3× partner growth?") ]%string.

(** [QUESTIONS.keys()] *)
Definition question_ids : list string := QUESTIONS.*1.

(** [qid in QUESTIONS] *)
Definition is_question (qid : string) : bool := bool_decide (qid ∈ question_ids).

(** [get_query_param(key, default)]: the query string as a dict. *)
Definition get_query_param (query : gmap string string) (key fallback : string) : string :=
  default fallback (query !! key).

Section Prefill.
(** The builtin [int] on a string: [None] when it raises. *)
Context (parse_int : string -> option Z).

(** One turn of the loop of [prefill_answers_from_query]. *)
Definition prefill_step (query : gmap string string) (out : gmap string Z) (qid : string)
  : gmap string Z :=
  match parse_int (get_query_param query (lower qid) "") with
  | Some val => if (1 <=? val) && (val <=? 5) then <[qid := val]> out else out
  | None => out
  end.

Definition prefill_answers_from_query (query : gmap string string) : gmap string Z :=
  fold_left (prefill_step query) question_ids ∅.
End Prefill.

(** A row of the uploaded sheet as the loop reads it: the stripped
    [question_id], and [int(row.get("response", 0))], [None] when it raises. *)
Record upload_row : Type := { row_question_id : string; row_response : option Z }.

(** [max(1, min(5, val))] *)
Definition clamp_response (val : Z) : Z := Z.max 1 (Z.min 5 val).

(** One turn of the loop over [df.iterrows()]. *)
Definition load_row (answers : gmap string Z) (row : upload_row) : gmap string Z :=
  let qid := row_question_id row in
  if is_question qid then
    let val := default 0 (row_response row) in
    <[qid := clamp_response val]> answers
  else answers.

Definition load_rows (rows : list upload_row) (answers : gmap string Z) : gmap string Z :=
  fold_left load_row rows answers.

(** [st.slider(label, min_value=1, max_value=5, value=default_val)] used
    within its declared range: for a default in [[1,5]] the widget returns
    the position [ui qid default_val] the visitor leaves it at.  For a
    default outside [[1,5]] the widget itself widens its bounds and goes on;
    the model stops there ([None]), so that an outcome of the model is a run
    in which every slider was shown on the scale from 1 to 5. *)
Definition slider (ui : string -> Z -> Z) (qid : string) (default_val : Z) : option Z :=
  if (1 <=? default_val) && (default_val <=? 5) then Some (ui qid default_val) else None.

(** One turn of the loop over [QUESTIONS.items()]. *)
Definition slider_step (ui : string -> Z -> Z) (answers : option (gmap string Z)) (qid : string)
  : option (gmap string Z) :=
  a ← answers;
  let default_val := default 3 (a !! qid) in
  v ← slider ui qid default_val;
  Some (<[qid := v]> a).

Definition ask_sliders (ui : string -> Z -> Z) (answers : gmap string Z)
  : option (gmap string Z) :=
  fold_left (slider_step ui) question_ids (Some answers).

(** The answers the page passes to [compute_scores]: the prefill, then the
    rows of an uploaded sheet if the admin supplied one, then the sliders. *)
Definition page_answers (parse_int : string -> option Z) (query : gmap string string)
    (uploaded : option (list upload_row)) (ui : string -> Z -> Z)
  : option (gmap string Z) :=
  let answers := prefill_answers_from_query parse_int query in
  let answers :=
    match uploaded with
    | Some rows => load_rows rows answers
    | None => answers
    end in
  ask_sliders ui answers.

(** What the prefill keeps of one question: the parameter named by the
    lower-cased id, when it reads as an integer of [[1,5]]. *)
Definition prefill_value (parse_int : string -> option Z) (query : gmap string string)
    (qid : string) : option Z :=
  match parse_int (get_query_param query (lower qid) "") with
  | Some val => if (1 <=? val) && (val <=? 5) then Some val else None
  | None => None
  end.

(** The position of a slider is within its range. *)
Definition slider_contract (ui : string -> Z -> Z) : Prop :=
  forall qid d, 1 <= ui qid d <= 5.

(** Every answer present lies in [[1,5]]. *)
Definition on_scale (answers : gmap string Z) : Prop :=
  forall q v, answers !! q = Some v -> 1 <= v <= 5.

(** The sum of the ten answers. *)
Definition total_answers (answers : gmap string Z) : Z :=
  sum_Z (gather answers question_ids).

(** A parser of plain decimal numerals, a part of what [int] accepts. *)
Definition digit_value (c : ascii) : option Z :=
  let n := nat_of_ascii c in
  if ((48 <=? n) && (n <=? 57))%nat then Some (Z.of_nat (n - 48)) else None.

Fixpoint parse_digits (acc : Z) (s : string) : option Z :=
  match s with
  | EmptyString => Some acc
  | String c s' =>
      match digit_value c with
      | Some d => parse_digits (10 * acc + d) s'
      | None => None
      end
  end.

Definition parse_decimal (s : string) : option Z :=
  match s with
  | EmptyString => None
  | _ => parse_digits 0 s
  end.

(** A query string, a sheet and a visitor for the examples. *)
Definition sample_query : gmap string string :=
  dict_of_pairs [ ("a1", "4"); ("b2", "9"); ("c1", "x"); ("company", "Acme") ]%string.

Definition sample_rows : list upload_row :=
  [ {| row_question_id := "A2"; row_response := Some 7 |};
    {| row_question_id := "B1"; row_response := None |};
    {| row_question_id := "Z9"; row_response := Some 2 |} ]%string.

Definition keep_default (qid : string) (d : Z) : Z := d.

(** One answer held before the sliders, and one key that is no question. *)
Definition held_answers : gmap string Z :=
  dict_of_pairs [ ("B2", 5); ("notes", 9) ]%string.

(** ** Binary64 numbers as values *)

(** [x] is a number of the binary64 format. *)
Definition binary64 (x : float) : Prop := valid_binary F64.prec F64.emax x = true.

Definition is_finite (x : float) : bool :=
  match x with
  | S754_zero _ | S754_finite _ _ _ => true
  | _ => false
  end.

(** The value of a finite float in units of [2^-1074], the spacing of the
    smallest binary64 numbers: an integer for every binary64 number. *)
Definition scaled (x : float) : Z :=
  match x with
  | S754_finite s m e => cond_Zopp s (Zpos m * 2 ^ (e + 1074))
  | _ => 0
  end.

(** Nearest integer of [a / d], ties to the even one. *)
Definition round_div (a d : Z) : Z :=
  let q := a / d in
  let r := a mod d in
  match 2 * r ?= d with
  | Lt => q
  | Gt => q + 1
  | Eq => if Z.even q then q else q + 1
  end.

(** The half-way points at which [round] changes band. *)
Definition minus_half : float := Eval vm_compute in F64.div (F64.of_Z (-1)) (F64.of_Z 2).
Definition f39_5 : float := Eval vm_compute in F64.div (F64.of_Z 79) (F64.of_Z 2).
Definition f59_5 : float := Eval vm_compute in F64.div (F64.of_Z 119) (F64.of_Z 2).
Definition f79_5 : float := Eval vm_compute in F64.div (F64.of_Z 159) (F64.of_Z 2).
Definition f100_5 : float := Eval vm_compute in F64.div (F64.of_Z 201) (F64.of_Z 2).

(** The tier as a function of the score itself. *)
Definition tier_by_thresholds (x : float) : result string :=
  if F64.is_nan x then Raise ValueError
  else if F64.is_infinity x then Raise OverflowError
  else if F64.ltb x minus_half then Ok "Unknown"%string
  else if F64.ltb x f39_5 then Ok "Emerging"%string
  else if F64.ltb x f59_5 then Ok "Developing"%string
  else if F64.ltb x f79_5 then Ok "Established"%string
  else if F64.leb x f100_5 then Ok "Optimized"%string
  else Ok "Unknown"%string.

(** ** Commentary *)

Definition pillar_commentary (pillar_name : string) (pscore : float) : string :=
  if F64.leb (F64.of_Z 80) pscore then
    pillar_name +:+ " is strong and scalable — keep reinforcing what works."
  else if F64.leb (F64.of_Z 60) pscore then
    pillar_name +:+ " shows a solid foundation with room to standardize and scale."
  else if F64.leb (F64.of_Z 40) pscore then
    pillar_name +:+ " is emerging — formalize structure, cadence, and measurement."
  else
    pillar_name +:+ " is underdeveloped — prioritize core mechanics and minimum viable structure.".

(** The threshold a score meets in [pillar_commentary]. *)
Definition commentary_floor (pscore : float) : Z :=
  if F64.leb (F64.of_Z 80) pscore then 80
  else if F64.leb (F64.of_Z 60) pscore then 60
  else if F64.leb (F64.of_Z 40) pscore then 40
  else 0.

(** The same thresholds on an integer, such as the rounded score that is
    printed beside the commentary. *)
Definition band_floor (r : Z) : Z :=
  if 80 <=? r then 80 else if 60 <=? r then 60 else if 40 <=? r then 40 else 0.

(** The text that follows the pillar name. *)
Definition commentary_text (floor : Z) : string :=
  if 80 <=? floor then " is strong and scalable — keep reinforcing what works."
  else if 60 <=? floor then " shows a solid foundation with room to standardize and scale."
  else if 40 <=? floor then " is emerging — formalize structure, cadence, and measurement."
  else " is underdeveloped — prioritize core mechanics and minimum viable structure.".

(** A score within half a point below a threshold: it rounds up to it. *)
Definition rounds_up_to_threshold (x : float) : bool :=
  (F64.leb f39_5 x && F64.ltb x (F64.of_Z 40)) ||
  (F64.leb f59_5 x && F64.ltb x (F64.of_Z 60)) ||
  (F64.leb f79_5 x && F64.ltb x (F64.of_Z 80)).

(** No two entries of the list tie: entries whose scores compare equal are
    the same entry. *)
Definition no_ties (ps : list pillar_score) : Prop :=
  forall a b, a ∈ ps -> b ∈ ps -> F64.eqb (ps_score a) (ps_score b) = true -> a = b.

(** Five scores without a tie. *)
Definition distinct_scores : list pillar_score :=
  [ ("A. Channel Strategy & Alignment"%string, F64.of_Z 70, ∅);
    ("B. Partner Program Design"%string, F64.of_Z 30, ∅);
    ("C. Partner Enablement & Engagement"%string, F64.of_Z 90, ∅);
    ("D. Sales & Operations Integration"%string, F64.of_Z 50, ∅);
    ("E. Growth Readiness"%string, F64.of_Z 20, ∅) ].

(** ** The radar chart and the webhook *)

(** [s] without its prefix [sep], if it starts with it. *)
Fixpoint strip_prefix (sep s : string) : option string :=
  match sep, s with
  | EmptyString, _ => Some s
  | String a sep', String b s' => if Ascii.eqb a b then strip_prefix sep' s' else None
  | String _ _, EmptyString => None
  end.

(** The text after the first occurrence of [sep], if there is one. *)
Fixpoint after_first (sep s : string) : option string :=
  match strip_prefix sep s with
  | Some rest => Some rest
  | None =>
      match s with
      | EmptyString => None
      | String _ s' => after_first sep s'
      end
  end.

(** [p[0].split(". ", 1)[1] if ". " in p[0] else p[0]] *)
Definition radar_label (pname : string) : string :=
  default pname (after_first ". " pname).

(** The labels and the values that [radar_chart] hands to the plot; the
    values are closed by [values + values[:1]]. *)
Definition radar_labels (pillar_scores : list pillar_score) : list string :=
  (fun p => radar_label (ps_name p)) <$> pillar_scores.

Definition radar_values (pillar_scores : list pillar_score) : list float :=
  let values := ps_score <$> pillar_scores in
  values ++ take 1 values.

(** The string has no full stop. *)
Fixpoint no_stop (s : string) : Prop :=
  match s with
  | EmptyString => True
  | String c s' => c <> "."%char /\ no_stop s'
  end.

(** What [requests.post] comes back with: a response, or an exception. *)
Inductive post_outcome : Type :=
  | Responded (status_code : Z) (text : string)
  | PostFailed (reason : string).

(** [to_zapier], with the webhook address and the outcome of the request
    as parameters.  The text of the response is read as a string of
    one-byte characters, of which [r.text[:200]] keeps the first 200; on a
    text with characters of several bytes the code cuts after 200
    characters, the model after 200 bytes.  Only the message depends on
    it. *)
Definition to_zapier (webhook_url : string) (post : post_outcome) : bool * string :=
  if bool_decide (webhook_url = ""%string) then (false, "Zapier webhook not set"%string)
  else
    match post with
    | Responded status_code text =>
        if status_code / 100 =? 2 then (true, "Sent to Zapier"%string)
        else (false, ("Zapier error: " +:+ pretty status_code +:+ " "
                      +:+ String.substring 0 200 text)%string)
    | PostFailed reason => (false, ("Zapier request failed: " +:+ reason)%string)
    end.

(** The mean of a pillar's answers is beyond the range of a float. *)
Definition mean_overflows (vals : list Z) : Prop :=
  F64.is_infinity
    (F64.div (F64.exact_Z (sum_Z vals)) (F64.exact_Z (Z.of_nat (length vals)))) = true.

(** * Properties *)

(** ** The order of binary64 numbers *)

Module FloatOrder.
Import F64.

Ltac compare_cases :=
  repeat match goal with
    | |- context [Z.compare ?a ?b] => destruct (Z.compare_spec a b)
    | _ : context [Z.compare ?a ?b] |- _ => destruct (Z.compare_spec a b)
    | |- context [Pos.compare_cont Eq ?a ?b] =>
        change (Pos.compare_cont Eq a b) with (Pos.compare a b);
        destruct (Pos.compare_spec a b)
    | _ : context [Pos.compare_cont Eq ?a ?b] |- _ =>
        change (Pos.compare_cont Eq a b) with (Pos.compare a b) in *;
        destruct (Pos.compare_spec a b)
    end.

Ltac float_cases x y :=
  destruct x as [[]|[]| |[] ? ?], y as [[]|[]| |[] ? ?];
  unfold number, F64.ltb, F64.eqb, F64.leb, SFltb, SFeqb, SFleb, lex_lt in *;
  simpl in *;
  try discriminate.

Lemma ltb_rank x y :
  number x -> number y -> F64.ltb x y = true <-> lex_lt (rank x) (rank y).
Proof.
  intros Hx Hy.
  float_cases x y; split; intros ?; compare_cases; simpl in *;
    try discriminate; try lia; try done.
Qed.

Lemma eqb_rank x y :
  number x -> number y -> F64.eqb x y = true <-> rank x = rank y.
Proof.
  intros Hx Hy.
  float_cases x y; split; intros Heq; compare_cases; simpl in *;
    try discriminate; try done;
    try (inversion Heq; lia); try (f_equal; [f_equal|]; lia).
Qed.

Lemma eqb_number x y : F64.eqb x y = true -> number x /\ number y.
Proof. destruct x as [[]|[]| |[] ? ?], y as [[]|[]| |[] ? ?]; done. Qed.

Lemma ltb_number x y : F64.ltb x y = true -> number x /\ number y.
Proof. destruct x as [[]|[]| |[] ? ?], y as [[]|[]| |[] ? ?]; done. Qed.

Lemma leb_ltb x y :
  number x -> number y -> F64.leb x y = true <-> F64.ltb y x = false.
Proof.
  intros Hx Hy.
  float_cases x y; split; intros ?; compare_cases; simpl in *;
    try discriminate; try lia; try done.
Qed.

Ltac by_rank x y z :=
  destruct (rank x) as [[? ?] ?], (rank y) as [[? ?] ?], (rank z) as [[? ?] ?];
  unfold lex_lt in *; simpl in *.

Lemma ltb_asym x y : F64.ltb x y = true -> F64.ltb y x = false.
Proof.
  intros Hxy. destruct (ltb_number _ _ Hxy) as [Hx Hy].
  apply not_true_iff_false. intros Hyx.
  apply ltb_rank in Hxy, Hyx; try done.
  by_rank x y x. lia.
Qed.

(** "Not greater" is transitive on numbers. *)
Lemma not_gt_trans x y z :
  number x -> number y -> number z ->
  F64.ltb y x = false -> F64.ltb z y = false -> F64.ltb z x = false.
Proof.
  intros Hx Hy Hz Hyx Hzy.
  apply not_true_iff_false. intros Hzx.
  apply not_true_iff_false in Hyx, Hzy.
  rewrite ltb_rank in Hyx, Hzy, Hzx by done.
  by_rank x y z. lia.
Qed.

(** Two keys that compare equal to a third are not ordered by [<]. *)
Lemma ltb_same_class x y k :
  F64.eqb x k = true -> F64.eqb y k = true -> F64.ltb y x = false.
Proof.
  intros Hxk Hyk.
  destruct (eqb_number _ _ Hxk) as [Hx Hk], (eqb_number _ _ Hyk) as [Hy _].
  apply not_true_iff_false. intros Hyx.
  apply eqb_rank in Hxk, Hyk; try done. apply ltb_rank in Hyx; try done.
  rewrite Hxk, Hyk in Hyx. by_rank k k k. lia.
Qed.

End FloatOrder.

(** ** The stable sort *)

Section SortingFacts.
Context {A : Type} (key : A -> float).

Lemma insert_sorted_perm x l : insert_sorted key x l ≡ₚ x :: l.
Proof.
  induction l as [|y l IH]; simpl; [done|].
  destruct (F64.ltb (key y) (key x)); [|done].
  rewrite IH. apply Permutation_swap.
Qed.

Lemma stable_sort_perm l : stable_sort key l ≡ₚ l.
Proof.
  induction l as [|x l IH]; simpl; [done|].
  by rewrite insert_sorted_perm, IH.
Qed.

Lemma py_sorted_perm r l : py_sorted key r l ≡ₚ l.
Proof.
  destruct r; simpl; [|apply stable_sort_perm].
  by rewrite reverse_Permutation, stable_sort_perm, reverse_Permutation.
Qed.

Lemma py_sorted_length r l : length (py_sorted key r l) = length l.
Proof. apply Permutation_length, py_sorted_perm. Qed.

Lemma numbers_perm l1 l2 : l1 ≡ₚ l2 -> numbers key l1 -> numbers key l2.
Proof. intros Hp. unfold numbers. by rewrite Hp. Qed.

Lemma insert_sorted_sorted x l :
  F64.number (key x) -> numbers key l ->
  StronglySorted (key_le key) l -> StronglySorted (key_le key) (insert_sorted key x l).
Proof.
  intros Hx. induction l as [|y l IH]; intros Hl Hs; simpl.
  - repeat constructor.
  - apply Forall_cons in Hl as [Hy Hl].
    apply StronglySorted_cons in Hs as [Hyl Hs].
    destruct (F64.ltb (key y) (key x)) eqn:Hlt.
    + apply StronglySorted_cons. split; [|by apply IH].
      rewrite insert_sorted_perm. constructor; [|done].
      by apply FloatOrder.ltb_asym.
    + apply StronglySorted_cons. split; [|by apply StronglySorted_cons].
      constructor; [done|].
      rewrite Forall_forall in Hyl, Hl |- *. intros z Hz.
      unfold key_le in *.
      eapply (FloatOrder.not_gt_trans (key x) (key y) (key z)); eauto.
Qed.

Lemma stable_sort_sorted l :
  numbers key l -> StronglySorted (key_le key) (stable_sort key l).
Proof.
  induction l as [|x l IH]; intros Hl; simpl; [constructor|].
  apply Forall_cons in Hl as [Hx Hl].
  apply insert_sorted_sorted; [done| |by apply IH].
  eapply numbers_perm; [symmetry; apply stable_sort_perm|done].
Qed.

Lemma StronglySorted_reverse (R : relation A) l :
  StronglySorted R l -> StronglySorted (flip R) (reverse l).
Proof.
  induction 1 as [|x l Hs IH Hx]; [constructor|].
  rewrite reverse_cons. apply StronglySorted_app. split_and!.
  - intros a b Ha Hb. apply list_elem_of_singleton in Hb as ->.
    rewrite elem_of_reverse in Ha. rewrite Forall_forall in Hx.
    unfold flip. by apply Hx.
  - done.
  - repeat constructor.
Qed.

(** Descending order: the outcome of [reverse=True]. *)
Lemma py_sorted_descending l :
  numbers key l -> StronglySorted (flip (key_le key)) (py_sorted key true l).
Proof.
  intros Hl. simpl. apply StronglySorted_reverse, stable_sort_sorted.
  eapply numbers_perm; [symmetry; apply reverse_Permutation|done].
Qed.

Lemma py_sorted_ascending l :
  numbers key l -> StronglySorted (key_le key) (py_sorted key false l).
Proof. apply stable_sort_sorted. Qed.

(** Stability: the items of one key keep their order. *)
Lemma insert_sorted_stable k x l :
  filter (has_key key k) (insert_sorted key x l) = filter (has_key key k) (x :: l).
Proof.
  induction l as [|y l IH]; simpl; [done|].
  destruct (F64.ltb (key y) (key x)) eqn:Hlt; [|done].
  rewrite (filter_cons _ y), IH, !filter_cons.
  destruct (decide (has_key key k x)) as [Hkx|]; [|done].
  destruct (decide (has_key key k y)) as [Hky|]; [|done].
  rewrite (FloatOrder.ltb_same_class _ _ _ Hkx Hky) in Hlt. done.
Qed.

Lemma stable_sort_stable k l :
  filter (has_key key k) (stable_sort key l) = filter (has_key key k) l.
Proof.
  induction l as [|x l IH]; simpl; [done|].
  by rewrite insert_sorted_stable, !filter_cons, IH.
Qed.

Lemma py_sorted_stable k r l :
  filter (has_key key k) (py_sorted key r l) = filter (has_key key k) l.
Proof.
  destruct r; simpl; [|apply stable_sort_stable].
  by rewrite filter_reverse, stable_sort_stable, filter_reverse, reverse_involutive.
Qed.

End SortingFacts.

(** ** Tier bands *)

Lemma in_band_spec s b : in_band s b = true <-> band_lo b <= s <= band_hi b.
Proof. unfold in_band. rewrite andb_true_iff, !Z.leb_le. done. Qed.

(** C6: the configured bands are Emerging 0-39, Developing 40-59,
    Established 60-79 and Optimized 80-100, and every integer of [[0,100]]
    lies in the inclusive range of exactly one of them. *)
Theorem tier_bands_partition (i : Z) :
  0 <= i <= 100 ->
  TIER_BANDS = [ ("Emerging"%string, 0, 39); ("Developing"%string, 40, 59);
                 ("Established"%string, 60, 79); ("Optimized"%string, 80, 100) ] /\
  exists b, filter (fun b => band_lo b <= i <= band_hi b) TIER_BANDS = [b].
Proof.
  intros Hi. split; [done|].
  unfold TIER_BANDS. rewrite !filter_cons, filter_nil.
  unfold band_lo, band_hi; simpl.
  repeat case_decide; try lia; eauto.
Qed.

Lemma tier_bands_partition_witness :
  0 <= 40 <= 100 /\
  exists b, filter (fun b => band_lo b <= 40 <= band_hi b) TIER_BANDS = [b].
Proof. split; [lia | apply (tier_bands_partition 40); lia]. Defined.

Lemma tier_lookup_first bands s b :
  b ∈ bands -> in_band s b = true ->
  exists b', b' ∈ bands /\ in_band s b' = true /\ tier_lookup bands s = band_name b'.
Proof.
  induction bands as [|c bands IH]; intros Hb Hin; [by apply elem_of_nil in Hb|].
  simpl. destruct (in_band s c) eqn:Hc.
  - exists c. split_and!; [left|done|done].
  - apply elem_of_cons in Hb as [->|Hb]; [congruence|].
    destruct (IH Hb Hin) as (b' & ? & ? & ?). exists b'. split_and!; [by right|done|done].
Qed.

Lemma tier_lookup_none bands s :
  (forall b, b ∈ bands -> in_band s b = false) -> tier_lookup bands s = "Unknown"%string.
Proof.
  induction bands as [|c bands IH]; intros Hno; [done|].
  simpl. rewrite (Hno c) by left. apply IH. intros b Hb. apply Hno. by right.
Qed.

Lemma tier_for_rounded score s :
  F64.py_round score = Ok s -> tier_for score = Ok (tier_lookup TIER_BANDS s).
Proof. intros Hr. unfold tier_for. by rewrite Hr. Qed.

(** C2, as far as the code goes: for a score that [round] accepts, the
    lookup returns the label of the band whose inclusive range holds the
    rounded score; when no band holds it, the lookup returns the label
    "Unknown" and raises nothing. *)
Theorem tier_for_lookup (score : float) (s : Z) :
  F64.py_round score = Ok s ->
  (forall b, b ∈ TIER_BANDS -> in_band s b = true -> tier_for score = Ok (band_name b)) /\
  ((forall b, b ∈ TIER_BANDS -> in_band s b = false) -> tier_for score = Ok "Unknown"%string).
Proof.
  intros Hr. rewrite (tier_for_rounded _ _ Hr). split.
  - intros b Hb Hin.
    destruct (tier_lookup_first _ _ _ Hb Hin) as (b' & Hb' & Hin' & ->).
    do 2 f_equal.
    apply in_band_spec in Hin, Hin'.
    unfold TIER_BANDS in Hb, Hb'.
    repeat (apply elem_of_cons in Hb as [->|Hb]); try (by apply elem_of_nil in Hb);
    repeat (apply elem_of_cons in Hb' as [->|Hb']); try (by apply elem_of_nil in Hb');
    unfold band_lo, band_hi in *; simpl in *; try done; lia.
  - intros Hno. by rewrite tier_lookup_none.
Qed.

Lemma tier_for_lookup_witness :
  F64.py_round (F64.of_Z 52) = Ok 52 /\
  tier_for (F64.of_Z 52) = Ok "Developing"%string.
Proof.
  split; [reflexivity|].
  apply (proj1 (tier_for_lookup (F64.of_Z 52) 52 eq_refl) ("Developing"%string, 40, 59)).
  - unfold TIER_BANDS. apply list_elem_of_further, list_elem_of_here.
  - reflexivity.
Defined.

(** C2, as stated, fails: the score 101.0 rounds to 101, no band holds 101,
    and the lookup returns a label instead of raising. *)
Lemma tier_for_unknown_not_raised :
  ¬ (forall score s, F64.py_round score = Ok s ->
       (forall b, b ∈ TIER_BANDS -> in_band s b = false) ->
       exists e, tier_for score = Raise e).
Proof.
  intros Hclaim.
  destruct (Hclaim (F64.of_Z 101) 101 eq_refl) as [e He].
  - intros b Hb. unfold TIER_BANDS in Hb.
    repeat (apply elem_of_cons in Hb as [->|Hb]); try reflexivity.
    by apply elem_of_nil in Hb.
  - vm_compute in He. discriminate He.
Qed.

(** ** The error monad and the loop over the catalog *)

Lemma mapM_Ok {A B} (f : A -> result B) (l : list A) (ks : list B) :
  mapM f l = Ok ks <-> Forall2 (fun x y => f x = Ok y) l ks.
Proof.
  revert ks. induction l as [|x l IH]; intros ks; simpl.
  - split.
    + intros [= <-]. constructor.
    + intros Hf. by inversion Hf.
  - split.
    + intros Hm. destruct (f x) as [y|] eqn:Hx; [|discriminate Hm].
      simpl in Hm. destruct (mapM f l) as [k|] eqn:Hl; [|discriminate Hm].
      injection Hm as <-. constructor; [done|]. by apply IH.
    + intros Hf. inversion Hf as [|? y ? k Hx Hl]; subst.
      rewrite Hx. simpl. apply IH in Hl. by rewrite Hl.
Qed.

Lemma mapM_Raise {A B} (f : A -> result B) (l : list A) e :
  mapM f l = Raise e -> exists x, x ∈ l /\ f x = Raise e.
Proof.
  induction l as [|x l IH]; simpl; [discriminate|].
  intros Hm. destruct (f x) as [y|e'] eqn:Hx; simpl in Hm.
  - destruct (mapM f l) as [k|e'] eqn:Hl; [discriminate Hm|].
    simpl in Hm. injection Hm as ->.
    destruct (IH eq_refl) as (x' & ? & ?). exists x'. split; [by right|done].
  - injection Hm as ->. exists x. split; [left|done].
Qed.

Lemma compute_scores_in_Ok catalog answers ps overall :
  compute_scores_in catalog answers = Ok (ps, overall) <->
  Forall2 (fun pl p => score_pillar answers pl = Ok p) catalog ps /\
  catalog <> [] /\
  overall = F64.div (F64.py_sum (ps_score <$> ps)) (F64.of_Z (Z.of_nat (length catalog))).
Proof.
  unfold compute_scores_in. split.
  - intros Hc. destruct (mapM _ catalog) as [k|] eqn:Hm; [|discriminate Hc].
    apply mapM_Ok in Hm. simpl in Hc.
    pose proof (Forall2_length _ _ _ Hm) as Hlen.
    unfold F64.float_div_int in Hc.
    destruct (Z.eqb_spec (Z.of_nat (length k)) 0) as [|Hne]; [discriminate Hc|].
    simpl in Hc. injection Hc as <- <-. split_and!; [done| |by rewrite Hlen].
    intros ->. apply Forall2_nil_inv_l in Hm as ->. done.
  - intros (Hf & Hne & ->).
    pose proof (Forall2_length _ _ _ Hf) as Hlen.
    apply mapM_Ok in Hf. rewrite Hf. simpl.
    unfold F64.float_div_int.
    destruct (Z.eqb_spec (Z.of_nat (length ps)) 0) as [Hz|_].
    + destruct catalog; [done|]. simpl in Hlen. lia.
    + simpl. by rewrite Hlen.
Qed.

(** ** One pillar *)

Lemma int_truediv_error a b e :
  F64.int_truediv a b = Raise e ->
  (e = ZeroDivisionError /\ b = 0) \/ (e = OverflowError /\ b <> 0).
Proof.
  unfold F64.int_truediv. destruct (Z.eqb_spec b 0) as [->|Hb].
  - intros [= <-]. by left.
  - destruct (F64.is_infinity _); [|discriminate]. intros [= <-]. by right.
Qed.

Lemma pscore_of_error vals e : pscore_of vals = Raise e -> e = OverflowError.
Proof.
  unfold pscore_of. destruct vals as [|v vals]; [discriminate|].
  simpl is_empty. rewrite orb_false_l.
  destruct (all_zero _); [discriminate|].
  destruct (F64.int_truediv _ _) as [m|e'] eqn:Hd; [discriminate|].
  simpl. intros [= ->].
  apply int_truediv_error in Hd as [[_ Hlen]|[? _]]; [|done].
  simpl length in Hlen. lia.
Qed.

Lemma pscore_of_unanswered vals :
  all_zero vals = true -> pscore_of vals = Ok f0.
Proof. intros Hz. unfold pscore_of. by rewrite Hz, orb_true_r. Qed.

Ltac on_scale v :=
  match goal with
  | H : _ <= v <= 5 |- _ =>
      assert (v = 0 \/ v = 1 \/ v = 2 \/ v = 3 \/ v = 4 \/ v = 5) as Hcases by lia;
      clear H;
      destruct Hcases as [->|[->|[->|[->|[->| ->]]]]]
  end.

(** On two answers of the scale (or 0) the three roundings of
    [(v1 + v2) / 2 / 5.0 * 100.0] cancel: the float is the integer
    [10 * (v1 + v2)]. *)
Lemma pscore_of_pair v1 v2 :
  0 <= v1 <= 5 -> 0 <= v2 <= 5 ->
  pscore_of [v1; v2] = Ok (F64.of_Z (10 * (v1 + v2))) /\
  mean_percent [v1; v2] = Ok (F64.of_Z (10 * (v1 + v2))) /\
  in_percent_range (F64.of_Z (10 * (v1 + v2))).
Proof.
  intros H1 H2. on_scale v1; on_scale v2; vm_compute; done.
Qed.

Lemma dict_fold_lookup {V} (f : string -> V) (qids : list string) (d : gmap string V) q :
  fold_left (fun d kv => <[kv.1 := kv.2]> d) (zip qids (f <$> qids)) d !! q =
  if decide (q ∈ qids) then Some (f q) else d !! q.
Proof.
  revert d. induction qids as [|k qids IH]; intros d.
  - rewrite decide_False; [done|]. intros H. by apply elem_of_nil in H.
  - cbn [fmap list_fmap zip zip_with fold_left]. rewrite IH. cbn [fst snd].
    destruct (decide (q ∈ qids)) as [Hin|Hnin].
    + rewrite decide_True; [done|]. by right.
    + destruct (decide (q = k)) as [->|Hne].
      * rewrite lookup_insert_eq, decide_True; [done|]. by left.
      * rewrite lookup_insert_ne by done. rewrite decide_False; [done|].
        rewrite elem_of_cons. tauto.
Qed.

(** The recorded detail of a pillar: the answer as given, 0 when absent. *)
Lemma detail_lookup answers qids q :
  q ∈ qids ->
  dict_of_pairs (zip qids (gather answers qids)) !! q = Some (default 0 (answers !! q)).
Proof.
  intros Hq. unfold dict_of_pairs, gather.
  rewrite (dict_fold_lookup (fun q => default 0 (answers !! q))).
  by rewrite decide_True.
Qed.

Lemma score_pillar_Ok answers pl p :
  score_pillar answers pl = Ok p <->
  exists s, pscore_of (gather answers pl.2) = Ok s /\
            p = (pl.1, s, dict_of_pairs (zip pl.2 (gather answers pl.2))).
Proof.
  unfold score_pillar. destruct (pscore_of _) as [s|e]; simpl.
  - split; [intros [= <-]; eauto | intros (s' & [= <-] & ->); done].
  - split; [discriminate | intros (s' & [=] & _)].
Qed.

Lemma score_pillar_error answers pl e :
  score_pillar answers pl = Raise e -> e = OverflowError.
Proof.
  unfold score_pillar. destruct (pscore_of _) as [s|e'] eqn:Hp; [discriminate|].
  simpl. intros [= <-]. by apply pscore_of_error in Hp.
Qed.

Lemma answer_on_scale (answers : gmap string Z) lo q :
  0 <= lo ->
  (forall q v, answers !! q = Some v -> lo <= v <= 5) ->
  0 <= default 0 (answers !! q) <= 5.
Proof.
  intros Hlo Hr. destruct (answers !! q) as [v|] eqn:Hq; simpl; [|lia].
  specialize (Hr q v Hq). lia.
Qed.

Lemma compute_scores_on_scale (answers : gmap string Z) lo :
  0 <= lo ->
  (forall q v, answers !! q = Some v -> lo <= v <= 5) ->
  exists ps overall,
    compute_scores answers = Ok (ps, overall) /\
    Forall2 (scored_exactly answers) PILLARS ps.
Proof.
  intros Hlo Hr.
  assert (forall n q1 q2,
    score_pillar answers (n, [q1; q2]) =
    Ok (n, F64.of_Z (10 * sum_Z (gather answers [q1; q2])),
        dict_of_pairs (zip [q1; q2] (gather answers [q1; q2])))) as Hpair.
  { intros n q1 q2. apply score_pillar_Ok. eexists. split; [|done].
    simpl.
    destruct (pscore_of_pair _ _ (answer_on_scale answers lo q1 Hlo Hr)
                (answer_on_scale answers lo q2 Hlo Hr)) as (-> & _ & _).
    reflexivity. }
  eexists _, _. split.
  - apply compute_scores_in_Ok. split_and!; [|done|reflexivity].
    unfold PILLARS. repeat (apply Forall2_cons; split; [apply Hpair|]).
    apply Forall2_nil_2.
  - unfold PILLARS. repeat (apply Forall2_cons; split; [reflexivity|]).
    apply Forall2_nil_2.
Qed.

Lemma PILLARS_pairs : Forall (fun pl : pillar => exists q1 q2, pl.2 = [q1; q2]) PILLARS.
Proof. unfold PILLARS. repeat constructor; simpl; eauto. Qed.

Lemma Forall2_with_left {A B} (P : A -> B -> Prop) (Q : A -> Prop) l k :
  Forall2 P l k -> Forall Q l -> Forall2 (fun x y => P x y /\ Q x) l k.
Proof.
  induction 1 as [|x y l k Hxy Hlk IH]; intros HQ; [constructor|].
  apply Forall_cons in HQ as [Hx HQ]. constructor; auto.
Qed.

Lemma Forall2_right {A B} (P : A -> B -> Prop) (Q : B -> Prop) l k :
  Forall2 P l k -> (forall x y, P x y -> Q y) -> Forall Q k.
Proof. induction 1; intros HPQ; constructor; eauto. Qed.

Lemma scored_exactly_facts answers lo pl p :
  0 <= lo ->
  (forall q v, answers !! q = Some v -> lo <= v <= 5) ->
  (exists q1 q2, pl.2 = [q1; q2]) ->
  scored_exactly answers pl p ->
  ps_name p = pl.1 /\
  ps_score p = F64.of_Z (10 * sum_Z (gather answers pl.2)) /\
  mean_percent (gather answers pl.2) = Ok (ps_score p) /\
  in_percent_range (ps_score p) /\
  (forall q, q ∈ pl.2 -> ps_detail p !! q = Some (default 0 (answers !! q))).
Proof.
  intros Hlo Hr (q1 & q2 & Hq) Hp. unfold scored_exactly in Hp. subst p.
  unfold ps_name, ps_score, ps_detail. cbn [fst snd].
  split_and!; [done|done| | |by apply detail_lookup].
  - rewrite Hq.
    destruct (pscore_of_pair _ _ (answer_on_scale answers lo q1 Hlo Hr)
                (answer_on_scale answers lo q2 Hlo Hr)) as (_ & Hm & _).
    apply Hm.
  - rewrite Hq.
    destruct (pscore_of_pair _ _ (answer_on_scale answers lo q1 Hlo Hr)
                (answer_on_scale answers lo q2 Hlo Hr)) as (_ & _ & Hin).
    apply Hin.
Qed.

(** ** The answers as the specification reads them *)

Lemma dict_of_pairs_Forall {V} (P : V -> Prop) (kvs : list (string * V)) :
  Forall (fun kv => P kv.2) kvs ->
  forall q v, dict_of_pairs kvs !! q = Some v -> P v.
Proof.
  unfold dict_of_pairs. intros HF.
  assert (forall d : gmap string V, (forall q v, d !! q = Some v -> P v) ->
            forall q v, fold_left (fun d kv => <[kv.1 := kv.2]> d) kvs d !! q = Some v -> P v) as H.
  { induction HF as [|kv kvs Hkv _ IH]; intros d Hd; [exact Hd|].
    simpl. apply IH. intros q v [[_ <-]|[_ Hq]]%lookup_insert_Some; [done|by eapply Hd]. }
  apply H. intros q v. by rewrite lookup_empty.
Qed.

Lemma answer_read_default answers q : answer_read answers q = default 0 (answers !! q).
Proof. unfold answer_read. by destruct (answers !! q). Qed.

Lemma gather_read answers qids : gather answers qids = answers_read answers qids.
Proof.
  induction qids as [|q qids IH]; [done|].
  cbn [answers_read]. rewrite <- IH, answer_read_default. done.
Qed.

Lemma sum_Z_answers vals : sum_Z vals = sum_answers vals.
Proof.
  unfold sum_Z.
  assert (forall acc, fold_left Z.add vals acc = acc + sum_answers vals) as H.
  { induction vals as [|v vals IH]; intros acc; simpl; [lia|]. rewrite IH. lia. }
  rewrite H. lia.
Qed.

Lemma all_zero_sum vals : all_zero vals = true -> sum_answers vals = 0.
Proof.
  unfold all_zero. induction vals as [|v vals IH]; [done|].
  cbn [forallb sum_answers]. intros [->%Z.eqb_eq Hz]%andb_true_iff. by rewrite IH.
Qed.

(** Whatever the answers, a pillar with questions is scored by the formula:
    the branch for answers that are all 0 returns what the formula gives. *)
Lemma pscore_of_formula vals s :
  vals <> [] -> pscore_of vals = Ok s -> mean_percent vals = Ok s.
Proof.
  intros Hne. unfold pscore_of, mean_percent. rewrite <- sum_Z_answers.
  destruct vals as [|v vals]; [done|]. simpl is_empty. rewrite orb_false_l.
  destruct (all_zero (v :: vals)) eqn:Hz; [|done].
  intros [= <-].
  rewrite sum_Z_answers, (all_zero_sum _ Hz).
  unfold F64.int_truediv.
  destruct (Z.eqb_spec (Z.of_nat (length (v :: vals))) 0) as [Hl|Hl]; [simpl in Hl; lia|].
  destruct (Z.of_nat (length (v :: vals))) as [|p|p] eqn:Hp; [done| |lia].
  reflexivity.
Qed.

Lemma compute_scores_in_error catalog answers e :
  catalog <> [] -> compute_scores_in catalog answers = Raise e -> e = OverflowError.
Proof.
  intros Hne. unfold compute_scores_in.
  destruct (mapM _ catalog) as [k|e'] eqn:Hm; simpl.
  - apply mapM_Ok, Forall2_length in Hm.
    unfold F64.float_div_int.
    destruct (Z.eqb_spec (Z.of_nat (length k)) 0) as [Hz|_]; [|discriminate].
    destruct catalog; [done|]. simpl in Hm. lia.
  - intros [= <-]. apply mapM_Raise in Hm as (pl & _ & Hpl).
    by apply score_pillar_error in Hpl.
Qed.

(** What [compute_scores] returns follows the answers as they are read:
    each pillar is scored by the formula on them and records them. *)
Lemma compute_scores_reads answers ps overall :
  compute_scores answers = Ok (ps, overall) ->
  Forall2 (fun pl p =>
             ps_name p = pl.1 /\
             mean_percent (answers_read answers pl.2) = Ok (ps_score p) /\
             forall q, q ∈ pl.2 -> ps_detail p !! q = Some (answer_read answers q))
          PILLARS ps.
Proof.
  intros Hc. apply compute_scores_in_Ok in Hc as (Hf & _ & _).
  pose proof (Forall2_with_left _ _ _ _ Hf PILLARS_pairs) as Hboth.
  eapply Forall2_impl; [exact Hboth|].
  intros pl p [Hp (q1 & q2 & Hq)]. simpl in Hp.
  apply score_pillar_Ok in Hp as (s & Hs & ->).
  unfold ps_name, ps_score, ps_detail. cbn [fst snd].
  split_and!; [done| |].
  - rewrite <- gather_read. apply pscore_of_formula; [|done].
    rewrite Hq. done.
  - intros q Hin. rewrite answer_read_default. by apply detail_lookup.
Qed.

Lemma pair_exact (answers : gmap string Z) lo q1 q2 :
  0 <= lo ->
  (forall q v, answers !! q = Some v -> lo <= v <= 5) ->
  pscore_of (gather answers [q1; q2])
    = Ok (F64.of_Z (10 * sum_answers (answers_read answers [q1; q2]))) /\
  in_percent_range (F64.of_Z (10 * sum_answers (answers_read answers [q1; q2]))).
Proof.
  intros Hlo Hr.
  destruct (pscore_of_pair _ _ (answer_on_scale answers lo q1 Hlo Hr)
              (answer_on_scale answers lo q2 Hlo Hr)) as (Hp & _ & Hin).
  cbn [answers_read sum_answers]. rewrite !answer_read_default, Z.add_0_r. done.
Qed.

(** On answers of the scale the formula is exact: the score is the integer
    [10 * sum]. *)
Lemma compute_scores_formula (answers : gmap string Z) lo ps overall :
  0 <= lo ->
  (forall q v, answers !! q = Some v -> lo <= v <= 5) ->
  compute_scores answers = Ok (ps, overall) ->
  Forall2 (fun pl p =>
             ps_name p = pl.1 /\
             mean_percent (answers_read answers pl.2) = Ok (ps_score p) /\
             in_percent_range (ps_score p) /\
             ps_score p = F64.of_Z (10 * sum_answers (answers_read answers pl.2)))
          PILLARS ps.
Proof.
  intros Hlo Hr Hc. apply compute_scores_in_Ok in Hc as (Hf & _ & _).
  pose proof (Forall2_with_left _ _ _ _ Hf PILLARS_pairs) as Hboth.
  eapply Forall2_impl; [exact Hboth|].
  intros pl p [Hp (q1 & q2 & Hq)]. simpl in Hp.
  apply score_pillar_Ok in Hp as (s & Hs & ->).
  unfold ps_name, ps_score, ps_detail. cbn [fst snd].
  rewrite Hq in Hs |- *.
  destruct (pair_exact answers lo q1 q2 Hlo Hr) as [Hp Hin].
  assert (s = F64.of_Z (10 * sum_answers (answers_read answers [q1; q2]))) as ->.
  { rewrite Hp in Hs. by injection Hs as <-. }
  split_and!; [done| |done|done].
  rewrite <- gather_read. by apply pscore_of_formula.
Qed.

(** ** Scores *)

(** C1, as far as the code goes.  For every set of answers, an answer that
    is missing is read as 0 and an answer that is present is used and
    recorded as given, on the scale or off it: whenever [compute_scores]
    returns, each pillar's score is the formula
    [(sum / count) / 5.0 * 100.0] on the values so read and its detail
    records them; the only exception it can raise is OverflowError.  When
    every answer present lies in [[0,5]], [compute_scores] returns and every
    pillar score lies in [[0,100]]. *)
Theorem compute_scores_within_scale (answers : gmap string Z) :
  (forall ps overall,
     compute_scores answers = Ok (ps, overall) ->
     Forall2 (fun pl p =>
                ps_name p = pl.1 /\
                mean_percent (answers_read answers pl.2) = Ok (ps_score p) /\
                forall q, q ∈ pl.2 -> ps_detail p !! q = Some (answer_read answers q))
             PILLARS ps) /\
  (forall e, compute_scores answers = Raise e -> e = OverflowError) /\
  ((forall q v, answers !! q = Some v -> 0 <= v <= 5) ->
   exists ps overall,
     compute_scores answers = Ok (ps, overall) /\
     Forall (fun p => in_percent_range (ps_score p)) ps).
Proof.
  split_and!.
  - apply compute_scores_reads.
  - intros e. by apply compute_scores_in_error.
  - intros Hr.
    destruct (compute_scores_on_scale answers 0 ltac:(lia) Hr) as (ps & overall & Hc & Hps).
    exists ps, overall. split; [done|].
    pose proof (Forall2_with_left _ _ _ _ Hps PILLARS_pairs) as Hboth.
    eapply Forall2_right; [exact Hboth|].
    intros pl p [Hp Hq]. by eapply (scored_exactly_facts answers 0 pl p).
Qed.

Lemma compute_scores_within_scale_witness :
  (exists ps overall,
     compute_scores above_scale = Ok (ps, overall) /\
     ps_score <$> ps = F64.of_Z <$> [200; 0; 0; 0; 0] /\
     (fun p => ps_detail p !! "A1"%string) <$> ps = [Some 10; None; None; None; None] /\
     Forall2 (fun pl p =>
                ps_name p = pl.1 /\
                mean_percent (answers_read above_scale pl.2) = Ok (ps_score p) /\
                forall q, q ∈ pl.2 -> ps_detail p !! q = Some (answer_read above_scale q))
             PILLARS ps) /\
  (forall q v, half_answered !! q = Some v -> 0 <= v <= 5) /\
  (exists ps overall,
     compute_scores half_answered = Ok (ps, overall) /\
     ps_score <$> ps = F64.of_Z <$> [60; 0; 30; 0; 0] /\
     Forall (fun p => in_percent_range (ps_score p)) ps).
Proof.
  assert (forall q v, half_answered !! q = Some v -> 0 <= v <= 5) as Hr.
  { apply dict_of_pairs_Forall. repeat constructor; simpl; lia. }
  split_and!; [|exact Hr|].
  - destruct (compute_scores above_scale) as [[ps overall]|e] eqn:Hc.
    + exists ps, overall. split; [reflexivity|].
      pose proof (proj1 (compute_scores_within_scale above_scale) ps overall Hc) as Hall.
      split_and!; [| |exact Hall].
      * change ps with (returned_pillars (Ok (ps, overall))).
        rewrite <- Hc. vm_compute. reflexivity.
      * change ps with (returned_pillars (Ok (ps, overall))).
        rewrite <- Hc. vm_compute. reflexivity.
    + exfalso.
      assert (length (returned_pillars (compute_scores above_scale)) = 5%nat) as Hlen
        by (vm_compute; reflexivity).
      rewrite Hc in Hlen. discriminate Hlen.
  - destruct (proj2 (proj2 (compute_scores_within_scale half_answered)) Hr)
      as (ps & overall & Hc & Hall).
    exists ps, overall. split; [exact Hc|]. split; [|exact Hall].
    change ps with (returned_pillars (Ok (ps, overall))).
    rewrite <- Hc. vm_compute. reflexivity.
Defined.

(** C1, as stated, fails: answers of 10 are not clamped, the first pillar
    scores 200.0. *)
Lemma compute_scores_above_scale :
  ¬ (forall answers : gmap string Z, exists ps overall,
       compute_scores answers = Ok (ps, overall) /\
       Forall (fun p => in_percent_range (ps_score p)) ps).
Proof.
  intros Hclaim. destruct (Hclaim above_scale) as (ps & overall & Hc & Hall).
  vm_compute in Hc. injection Hc as <- <-.
  apply Forall_cons in Hall as [[_ Hhi] _].
  vm_compute in Hhi. discriminate Hhi.
Qed.

Example above_scale_scores :
  exists ps overall,
    compute_scores above_scale = Ok (ps, overall) /\
    ps_score <$> ps = F64.of_Z <$> [200; 0; 0; 0; 0] /\
    overall = F64.of_Z 40.
Proof. eexists _, _. split; [vm_compute; reflexivity|]. by vm_compute. Qed.

(** An answer beyond the range of a float makes the division raise. *)
Example huge_answer_raises :
  compute_scores {[ "A1"%string := 2 ^ 1100 ]} = Raise OverflowError.
Proof. by vm_compute. Qed.

(** C3: when every answer lies in [[1,5]], each pillar's score is the float
    that [(sum / count) / 5.0 * 100.0] evaluates to on the answers given to
    the pillar's questions, lies in [[0,100]], and is the real number
    [10 * sum] without any rounding error. *)
Theorem pillar_scores_exact (answers : gmap string Z) :
  (forall q v, answers !! q = Some v -> 1 <= v <= 5) ->
  exists ps overall,
    compute_scores answers = Ok (ps, overall) /\
    Forall2 (fun pl p =>
               ps_name p = pl.1 /\
               mean_percent (answers_read answers pl.2) = Ok (ps_score p) /\
               in_percent_range (ps_score p) /\
               ps_score p = F64.of_Z (10 * sum_answers (answers_read answers pl.2)))
            PILLARS ps.
Proof.
  intros Hr.
  destruct (compute_scores_on_scale answers 1 ltac:(lia) Hr) as (ps & overall & Hc & _).
  exists ps, overall. split; [done|].
  by apply (compute_scores_formula answers 1 ps overall).
Qed.

Lemma pillar_scores_exact_witness :
  (forall q v, scenario !! q = Some v -> 1 <= v <= 5) /\
  exists ps overall,
    compute_scores scenario = Ok (ps, overall) /\
    ps_score <$> ps = F64.of_Z <$> [100; 20; 60; 60; 20] /\
    Forall2 (fun pl p =>
               ps_name p = pl.1 /\
               mean_percent (answers_read scenario pl.2) = Ok (ps_score p) /\
               in_percent_range (ps_score p) /\
               ps_score p = F64.of_Z (10 * sum_answers (answers_read scenario pl.2)))
            PILLARS ps.
Proof.
  assert (forall q v, scenario !! q = Some v -> 1 <= v <= 5) as Hr.
  { apply dict_of_pairs_Forall. repeat constructor; simpl; lia. }
  split; [exact Hr|].
  destruct (pillar_scores_exact scenario Hr) as (ps & overall & Hc & Hall).
  exists ps, overall. split; [exact Hc|]. split; [|exact Hall].
  change ps with (returned_pillars (Ok (ps, overall))).
  rewrite <- Hc. vm_compute. reflexivity.
Defined.

(** C4: the overall score is the sum of all pillar scores divided by the
    number of pillars, whatever the number of questions of each pillar; a
    pillar whose answers are all 0 or missing scores exactly 0.0 and stays
    in the list that is summed and counted. *)
Theorem overall_is_unweighted_mean
    (catalog : list pillar) (answers : gmap string Z) ps overall :
  compute_scores_in catalog answers = Ok (ps, overall) ->
  overall = F64.div (F64.py_sum (ps_score <$> ps)) (F64.of_Z (Z.of_nat (length ps))) /\
  Forall2 (fun pl p =>
             ps_name p = pl.1 /\
             (all_zero (gather answers pl.2) = true -> ps_score p = f0))
          catalog ps.
Proof.
  intros Hc. apply compute_scores_in_Ok in Hc as (Hf & _ & ->).
  split; [by rewrite (Forall2_length _ _ _ Hf)|].
  eapply Forall2_impl; [exact Hf|].
  intros pl p Hp. simpl in Hp.
  apply score_pillar_Ok in Hp as (s & Hs & ->).
  split; [done|]. intros Hz.
  rewrite (pscore_of_unanswered _ Hz) in Hs. by injection Hs as <-.
Qed.

Lemma overall_is_unweighted_mean_witness :
  exists ps overall,
    compute_scores_in PILLARS half_answered = Ok (ps, overall) /\
    ps_score <$> ps = F64.of_Z <$> [60; 0; 30; 0; 0] /\
    overall = F64.of_Z 18 /\
    overall = F64.div (F64.py_sum (ps_score <$> ps)) (F64.of_Z (Z.of_nat (length ps))) /\
    Forall2 (fun pl p =>
               ps_name p = pl.1 /\
               (all_zero (gather half_answered pl.2) = true -> ps_score p = f0))
            PILLARS ps.
Proof.
  eexists _, _. split; [vm_compute; reflexivity|].
  split; [by vm_compute|]. split; [by vm_compute|].
  apply (overall_is_unweighted_mean PILLARS half_answered).
  by vm_compute.
Defined.

Lemma in_percent_range_number x : in_percent_range x -> F64.number x.
Proof. intros [Hlo _]. by destruct x. Qed.

(** On answers of the scale no score is NaN: the lists that
    [derive_strengths_gaps] and [recommend_actions] receive are ordered
    totally by [<]. *)
Lemma compute_scores_numbers (answers : gmap string Z) :
  (forall q v, answers !! q = Some v -> 0 <= v <= 5) ->
  exists ps overall,
    compute_scores answers = Ok (ps, overall) /\ numbers ps_score ps.
Proof.
  intros Hr.
  destruct (compute_scores_on_scale answers 0 ltac:(lia) Hr) as (ps & overall & Hc & Hps).
  exists ps, overall. split; [done|].
  pose proof (Forall2_with_left _ _ _ _ Hps PILLARS_pairs) as Hboth.
  eapply Forall2_right; [exact Hboth|].
  intros pl p [Hp Hq]. apply in_percent_range_number.
  by eapply (scored_exactly_facts answers 0 pl p).
Qed.

(** ** A pillar without questions *)

(** C8: in any catalog, a pillar without questions is scored 0.0 without a
    division; [compute_scores] never raises ZeroDivisionError on such a
    catalog, and what it returns holds 0.0 at the place of that pillar. *)
Theorem empty_pillar_scores_zero
    (catalog : list pillar) (answers : gmap string Z) (i : nat) (pname : string) :
  catalog !! i = Some (pname, []) ->
  score_pillar answers (pname, []) = Ok (pname, f0, ∅) /\
  compute_scores_in catalog answers <> Raise ZeroDivisionError /\
  (forall ps overall,
     compute_scores_in catalog answers = Ok (ps, overall) ->
     ps !! i = Some (pname, f0, ∅)).
Proof.
  intros Hi. split_and!.
  - reflexivity.
  - intros Hc. apply compute_scores_in_error in Hc; [done|].
    intros ->. by rewrite lookup_nil in Hi.
  - intros ps overall Hc. apply compute_scores_in_Ok in Hc as (Hf & _ & _).
    eapply Forall2_lookup_l in Hf as (p & Hp & Hs); [|exact Hi].
    refine (eq_trans Hp _). f_equal.
    change (score_pillar answers (pname, [])) with (@Ok pillar_score (pname, f0, ∅)) in Hs.
    by injection Hs as <-.
Qed.

Lemma empty_pillar_scores_zero_witness :
  sparse_catalog !! 1%nat = Some ("X. Not yet defined"%string, []) /\
  exists ps overall,
    compute_scores_in sparse_catalog scenario = Ok (ps, overall) /\
    ps !! 1%nat = Some ("X. Not yet defined"%string, f0, ∅).
Proof.
  split; [reflexivity|].
  eexists _, _. split; [vm_compute; reflexivity|].
  eapply (proj2 (proj2 (empty_pillar_scores_zero sparse_catalog scenario 1
                          "X. Not yet defined" eq_refl))).
  by vm_compute.
Defined.

(** ** The scenario *)

(** C7: on the scenario the pillar scores are 100, 20, 60, 60 and 20, the
    overall score is 52.0 and the tier is "Developing"; the gaps are B, E
    and D (the later of the two pillars tied at 60) and the strengths are A
    and C (the earlier of the two). *)
Theorem scenario_results :
  compute_scores scenario = Ok (scenario_scores, F64.of_Z 52) /\
  ps_name <$> scenario_scores = fst <$> PILLARS /\
  ps_score <$> scenario_scores = F64.of_Z <$> [100; 20; 60; 60; 20] /\
  tier_for (F64.of_Z 52) = Ok "Developing"%string /\
  (derive_strengths_gaps scenario_scores).1 =
    [ "A. Channel Strategy & Alignment"; "C. Partner Enablement & Engagement" ]%string /\
  (derive_strengths_gaps scenario_scores).2 ≡ₚ
    [ "B. Partner Program Design"; "E. Growth Readiness";
      "D. Sales & Operations Integration" ]%string.
Proof.
  split_and!; try (by vm_compute).
  vm_compute. apply Permutation_cons_append.
Qed.

(** ** Strengths, gaps and recommendations *)

Lemma StronglySorted_impl_elem {A} (R1 R2 : relation A) l :
  (forall a b, a ∈ l -> b ∈ l -> R1 a b -> R2 a b) ->
  StronglySorted R1 l -> StronglySorted R2 l.
Proof.
  intros Himpl Hs. induction Hs as [|x l Hs IH Hx]; [constructor|].
  constructor.
  - apply IH. intros a b Ha Hb. apply Himpl; by right.
  - rewrite Forall_forall in Hx |- *. intros y Hy.
    apply Himpl; [left|by right|by apply Hx].
Qed.

Lemma sorted_descending_scores ps :
  numbers ps_score ps ->
  StronglySorted scores_ge (py_sorted ps_score true ps).
Proof.
  intros Hn.
  assert (numbers ps_score (py_sorted ps_score true ps)) as Hn'.
  { eapply numbers_perm; [symmetry; apply py_sorted_perm|done]. }
  eapply StronglySorted_impl_elem; [|by apply py_sorted_descending].
  unfold numbers in Hn'. rewrite Forall_forall in Hn'.
  intros a b Ha Hb Hab. unfold flip, key_le in Hab.
  apply FloatOrder.leb_ltb; auto.
Qed.

Lemma sorted_ascending_scores ps :
  numbers ps_score ps ->
  StronglySorted scores_le (py_sorted ps_score false ps).
Proof.
  intros Hn.
  assert (numbers ps_score (py_sorted ps_score false ps)) as Hn'.
  { eapply numbers_perm; [symmetry; apply py_sorted_perm|done]. }
  eapply StronglySorted_impl_elem; [|by apply py_sorted_ascending].
  unfold numbers in Hn'. rewrite Forall_forall in Hn'.
  intros a b Ha Hb Hab. unfold key_le in Hab.
  apply FloatOrder.leb_ltb; auto.
Qed.

Lemma last_n_split {A} n (l : list A) :
  take (length l - n) l ++ last_n n l = l /\ length (last_n n l) = min n (length l).
Proof.
  unfold last_n. split; [apply take_drop|]. rewrite length_drop. lia.
Qed.

(** C5, as far as the code goes: the gaps are the last three pillars of the
    stable descending sort.  They are the three lowest-scoring pillars,
    listed in descending order of score (weakest last); pillars of equal
    score keep their catalog order, so of pillars tied at the cut the later
    ones are the gaps. *)
Theorem gaps_are_tail_of_descending (ps : list pillar_score) :
  numbers ps_score ps ->
  exists top low,
    top ++ low ≡ₚ ps /\
    (derive_strengths_gaps ps).2 = ps_name <$> low /\
    length low = min 3 (length ps) /\
    StronglySorted scores_ge (top ++ low) /\
    forall k, filter (has_key ps_score k) (top ++ low) = filter (has_key ps_score k) ps.
Proof.
  intros Hn.
  set (sorted_p := py_sorted ps_score true ps).
  destruct (last_n_split 3 sorted_p) as [Hsplit Hlen].
  exists (take (length sorted_p - 3) sorted_p), (last_n 3 sorted_p).
  rewrite Hsplit. split_and!.
  - apply py_sorted_perm.
  - reflexivity.
  - rewrite Hlen. unfold sorted_p. by rewrite py_sorted_length.
  - by apply sorted_descending_scores.
  - intros k. apply py_sorted_stable.
Qed.

Lemma gaps_are_tail_of_descending_witness :
  numbers ps_score scenario_scores /\
  exists top low,
    top ++ low ≡ₚ scenario_scores /\
    (derive_strengths_gaps scenario_scores).2 = ps_name <$> low /\
    length low = min 3 (length scenario_scores) /\
    StronglySorted scores_ge (top ++ low) /\
    forall k, filter (has_key ps_score k) (top ++ low)
              = filter (has_key ps_score k) scenario_scores.
Proof.
  assert (numbers ps_score scenario_scores) as Hn.
  { unfold scenario_scores. repeat constructor. }
  split; [exact Hn | exact (gaps_are_tail_of_descending scenario_scores Hn)].
Defined.

(** C5, as stated, fails: on the scenario the gaps come out as D, B, E, the
    weakest pillars last, while the first three of the ascending sort are
    B, E, C. *)
Lemma gaps_not_ascending :
  ¬ (forall ps, numbers ps_score ps ->
       (derive_strengths_gaps ps).2 = gaps_ascending ps).
Proof.
  intros Hclaim.
  assert (numbers ps_score scenario_scores) as Hn.
  { unfold scenario_scores. repeat constructor. }
  specialize (Hclaim scenario_scores Hn).
  vm_compute in Hclaim. discriminate Hclaim.
Qed.

Example scenario_gaps :
  (derive_strengths_gaps scenario_scores).2 =
    [ "D. Sales & Operations Integration"; "B. Partner Program Design";
      "E. Growth Readiness" ]%string /\
  gaps_ascending scenario_scores =
    [ "B. Partner Program Design"; "E. Growth Readiness";
      "C. Partner Enablement & Engagement" ]%string.
Proof. split; by vm_compute. Qed.

(** C9: on five pillar scores the two strengths and the three gaps are the
    two slices of one permutation of the input: together they list every
    pillar name as often as the input does, so when the five names are
    distinct no name is listed twice and none is both a strength and a gap. *)
Theorem strengths_gaps_split (ps : list pillar_score) :
  length ps = 5%nat ->
  length (derive_strengths_gaps ps).1 = 2%nat /\
  length (derive_strengths_gaps ps).2 = 3%nat /\
  (derive_strengths_gaps ps).1 ++ (derive_strengths_gaps ps).2 ≡ₚ ps_name <$> ps /\
  (NoDup (ps_name <$> ps) ->
   NoDup ((derive_strengths_gaps ps).1 ++ (derive_strengths_gaps ps).2) /\
   forall n, n ∈ (derive_strengths_gaps ps).1 -> n ∉ (derive_strengths_gaps ps).2).
Proof.
  intros Hlen. unfold derive_strengths_gaps. cbn [fst snd].
  set (sorted_p := py_sorted ps_score true ps).
  assert (length sorted_p = 5%nat) as Hlen'.
  { unfold sorted_p. by rewrite py_sorted_length. }
  assert (take 2 sorted_p ++ last_n 3 sorted_p = sorted_p) as Hsplit.
  { unfold last_n. rewrite Hlen'. apply take_drop. }
  assert ((ps_name <$> take 2 sorted_p) ++ (ps_name <$> last_n 3 sorted_p)
          ≡ₚ ps_name <$> ps) as Hperm.
  { rewrite <- fmap_app, Hsplit. apply fmap_Permutation, py_sorted_perm. }
  split_and!.
  - rewrite length_fmap, length_take. lia.
  - rewrite length_fmap. unfold last_n. rewrite length_drop. lia.
  - exact Hperm.
  - intros Hnd. rewrite <- Hperm in Hnd. split; [done|].
    apply NoDup_app in Hnd as (_ & Hdisj & _). exact Hdisj.
Qed.

Lemma strengths_gaps_split_witness :
  length scenario_scores = 5%nat /\
  (derive_strengths_gaps scenario_scores).1 ++ (derive_strengths_gaps scenario_scores).2
    ≡ₚ ps_name <$> scenario_scores.
Proof.
  split; [reflexivity|].
  exact (proj1 (proj2 (proj2 (strengths_gaps_split scenario_scores eq_refl)))).
Defined.

Lemma playbook_covers_catalog n :
  n ∈ (fst <$> PILLARS) -> exists r, playbook !! n = Some r.
Proof.
  unfold PILLARS. cbn [fmap list_fmap fst].
  intros Hn.
  repeat (apply elem_of_cons in Hn as [->|Hn]; [eexists; by vm_compute|]).
  by apply elem_of_nil in Hn.
Qed.

Lemma action_for_entry p r : playbook !! ps_name p = Some r -> action_for p = r.
Proof. intros Hr. unfold action_for. by rewrite Hr. Qed.

(** C10: when every pillar name comes from the catalog, every text that
    [recommend_actions] returns is the playbook's entry for its pillar (the
    generic text is never built); the pillars served are the first three,
    or all if fewer, of the stable ascending sort, the lowest-scoring ones
    with the weakest first. *)
Theorem recommendations_from_playbook (ps : list pillar_score) :
  Forall (fun p => ps_name p ∈ (fst <$> PILLARS)) ps ->
  exists lows rest,
    lows ++ rest ≡ₚ ps /\
    length lows = min 3 (length ps) /\
    Forall2 (fun p r => playbook !! ps_name p = Some r) lows (recommend_actions ps) /\
    (numbers ps_score ps -> StronglySorted scores_le (lows ++ rest)) /\
    forall k, filter (has_key ps_score k) (lows ++ rest) = filter (has_key ps_score k) ps.
Proof.
  intros Hnames.
  set (sorted_p := py_sorted ps_score false ps).
  exists (take 3 sorted_p), (drop 3 sorted_p).
  rewrite take_drop. split_and!.
  - apply py_sorted_perm.
  - rewrite length_take. unfold sorted_p. by rewrite py_sorted_length.
  - unfold recommend_actions. fold sorted_p.
    apply Forall2_fmap_r, Forall_Forall2_diag.
    apply Forall_forall. intros p Hp.
    apply subseteq_take in Hp.
    unfold sorted_p in Hp. rewrite py_sorted_perm in Hp.
    rewrite Forall_forall in Hnames.
    destruct (playbook_covers_catalog _ (Hnames p Hp)) as [r Hr].
    simpl. rewrite (action_for_entry _ _ Hr). exact Hr.
  - intros Hn. by apply sorted_ascending_scores.
  - intros k. apply py_sorted_stable.
Qed.

Lemma recommendations_from_playbook_witness :
  Forall (fun p => ps_name p ∈ (fst <$> PILLARS)) scenario_scores /\
  exists lows rest,
    lows ++ rest ≡ₚ scenario_scores /\
    length lows = min 3 (length scenario_scores) /\
    Forall2 (fun p r => playbook !! ps_name p = Some r) lows
            (recommend_actions scenario_scores) /\
    (numbers ps_score scenario_scores -> StronglySorted scores_le (lows ++ rest)) /\
    forall k, filter (has_key ps_score k) (lows ++ rest)
              = filter (has_key ps_score k) scenario_scores.
Proof.
  assert (Forall (fun p => ps_name p ∈ (fst <$> PILLARS)) scenario_scores) as Hnames.
  { unfold scenario_scores, PILLARS. cbn [fmap list_fmap fst].
    repeat (apply Forall_cons; split; [set_solver|]). apply Forall_nil_2. }
  split; [exact Hnames | exact (recommendations_from_playbook scenario_scores Hnames)].
Defined.

(** A name outside the catalog does reach the generic text. *)
Example generic_text_outside_catalog :
  recommend_actions [("Z. Pricing"%string, f0, ∅)] =
    ["Prioritize foundational improvements in z. pricing to enable scale."%string].
Proof. by vm_compute. Qed.

Example scenario_recommendations :
  Forall2 (fun n r => playbook !! n = Some r)
    [ "B. Partner Program Design"; "E. Growth Readiness";
      "C. Partner Enablement & Engagement" ]%string
    (recommend_actions scenario_scores).
Proof. vm_compute. repeat constructor. Qed.

(** * Further properties *)

(** ** The prefill from the query string *)

Lemma question_ids_NoDup : NoDup question_ids.
Proof. apply (bool_decide_unpack _). by vm_compute. Qed.

Lemma prefill_step_value parse_int query out qid :
  prefill_step parse_int query out qid =
  match prefill_value parse_int query qid with
  | Some val => <[qid := val]> out
  | None => out
  end.
Proof.
  unfold prefill_step, prefill_value.
  destruct (parse_int _) as [val|]; [|done].
  by destruct ((1 <=? val) && (val <=? 5)).
Qed.

Lemma prefill_fold parse_int query (l : list string) (out : gmap string Z) q :
  fold_left (prefill_step parse_int query) l out !! q =
  match (if decide (q ∈ l) then prefill_value parse_int query q else None) with
  | Some val => Some val
  | None => out !! q
  end.
Proof.
  revert out. induction l as [|k l IH]; intros out.
  - rewrite decide_False; [done|]. intros H. by apply elem_of_nil in H.
  - cbn [fold_left]. rewrite IH, prefill_step_value.
    destruct (decide (q = k)) as [->|Hne].
    + rewrite (decide_True (P := k ∈ k :: l)) by left.
      destruct (decide (k ∈ l)); destruct (prefill_value _ _ k); try done.
      by rewrite lookup_insert_eq.
    + destruct (decide (q ∈ l)) as [Hin|Hnin].
      * rewrite (decide_True (P := q ∈ k :: l)) by (by right).
        destruct (prefill_value _ _ q); [done|].
        destruct (prefill_value _ _ k); [|done]. by rewrite lookup_insert_ne.
      * rewrite (decide_False (P := q ∈ k :: l)).
        2:{ rewrite elem_of_cons. tauto. }
        destruct (prefill_value _ _ k); [|done]. by rewrite lookup_insert_ne.
Qed.

Lemma prefill_value_Some parse_int query q v :
  prefill_value parse_int query q = Some v <->
  parse_int (get_query_param query (lower q) "") = Some v /\ 1 <= v <= 5.
Proof.
  unfold prefill_value. destruct (parse_int _) as [val|].
  - destruct ((1 <=? val) && (val <=? 5)) eqn:Hval.
    + apply andb_true_iff in Hval as [?%Z.leb_le ?%Z.leb_le].
      split; [intros [= ->]; split; auto; lia | by intros ([= ->] & _)].
    + split; [done|]. intros ([= ->] & Hv).
      apply andb_false_iff in Hval as [?%Z.leb_gt | ?%Z.leb_gt]; lia.
  - split; [done | by intros (? & _)].
Qed.

Lemma prefill_lookup_value parse_int query q :
  prefill_answers_from_query parse_int query !! q =
  if decide (q ∈ question_ids) then prefill_value parse_int query q else None.
Proof.
  unfold prefill_answers_from_query. rewrite prefill_fold, lookup_empty.
  destruct (decide (q ∈ question_ids)); [|done]. by destruct (prefill_value _ _ q).
Qed.


Lemma prefill_on_scale parse_int query :
  on_scale (prefill_answers_from_query parse_int query).
Proof.
  intros q v. rewrite prefill_lookup_value.
  destruct (decide (q ∈ question_ids)); [|done].
  rewrite prefill_value_Some. tauto.
Qed.

Lemma prefill_keys parse_int query q :
  is_Some (prefill_answers_from_query parse_int query !! q) -> q ∈ question_ids.
Proof.
  rewrite prefill_lookup_value.
  destruct (decide (q ∈ question_ids)); [done|]. by intros [? ?].
Qed.

(** ** The uploaded sheet *)

Lemma clamp_response_range val : 1 <= clamp_response val <= 5.
Proof. unfold clamp_response. lia. Qed.

Lemma is_question_spec q : is_question q = true <-> q ∈ question_ids.
Proof. unfold is_question. apply bool_decide_eq_true. Qed.



Lemma load_row_on_scale answers r : on_scale answers -> on_scale (load_row answers r).
Proof.
  intros Ha q v. unfold load_row.
  destruct (is_question _); [|apply Ha].
  intros [[_ <-]|[_ Hq]]%lookup_insert_Some; [apply clamp_response_range|by eapply Ha].
Qed.

Lemma load_rows_on_scale rows answers :
  on_scale answers -> on_scale (load_rows rows answers).
Proof.
  revert answers. induction rows as [|r rows IH]; intros answers Ha; [done|].
  apply IH. by apply load_row_on_scale.
Qed.

Lemma load_rows_keys rows answers q :
  is_Some (load_rows rows answers !! q) -> is_Some (answers !! q) \/ q ∈ question_ids.
Proof.
  revert answers. induction rows as [|r rows IH]; intros answers Hq; [by left|].
  destruct (IH _ Hq) as [Hin|?]; [|by right].
  unfold load_row in Hin.
  destruct (is_question (row_question_id r)) eqn:Hr; [|by left].
  destruct (decide (row_question_id r = q)) as [<-|Hne].
  - right. by apply is_question_spec.
  - rewrite lookup_insert_ne in Hin by done. by left.
Qed.

(** ** The sliders *)

Lemma slider_steps_accept ui l (a : gmap string Z) :
  NoDup l ->
  (forall q, q ∈ l -> 1 <= default 3 (a !! q) <= 5) ->
  exists final,
    fold_left (slider_step ui) l (Some a) = Some final /\
    forall q, final !! q =
              if decide (q ∈ l) then Some (ui q (default 3 (a !! q))) else a !! q.
Proof.
  revert a. induction l as [|k l IH]; intros a Hnd Hr.
  - exists a. split; [done|]. intros q. rewrite decide_False; [done|].
    intros H. by apply elem_of_nil in H.
  - apply NoDup_cons in Hnd as [Hk Hnd].
    cbn [fold_left]. unfold slider_step at 2. cbn [mbind option_bind].
    unfold slider.
    assert (1 <= default 3 (a !! k) <= 5) as Hd by (apply Hr; left).
    replace ((1 <=? default 3 (a !! k)) && (default 3 (a !! k) <=? 5)) with true
      by (symmetry; apply andb_true_iff; rewrite !Z.leb_le; lia).
    cbn [mbind option_bind].
    destruct (IH (<[k := ui k (default 3 (a !! k))]> a) Hnd) as (final & Hf & Hl).
    { intros q Hq. rewrite lookup_insert_ne by (intros ->; done). apply Hr. by right. }
    exists final. split; [done|]. intros q. rewrite Hl.
    destruct (decide (q = k)) as [->|Hne].
    + rewrite decide_False by done. rewrite decide_True by left.
      by rewrite lookup_insert_eq.
    + rewrite lookup_insert_ne by done.
      destruct (decide (q ∈ l)).
      * by rewrite decide_True by (by right).
      * rewrite decide_False; [done|]. rewrite elem_of_cons. tauto.
Qed.

(** When every question's default, the answer held or else 3, lies in
    [[1,5]], the loop shows all ten sliders on their scale: each question
    ends at the position of its slider, which was handed the default of the
    answers as they were before the loop, and every other key is left as it
    was. *)
Theorem ask_sliders_spec (ui : string -> Z -> Z) (answers : gmap string Z) :
  (forall q, q ∈ question_ids -> 1 <= default 3 (answers !! q) <= 5) ->
  exists final,
    ask_sliders ui answers = Some final /\
    forall q, final !! q =
              if decide (q ∈ question_ids)
              then Some (ui q (default 3 (answers !! q)))
              else answers !! q.
Proof.
  intros Hr. unfold ask_sliders.
  exact (slider_steps_accept ui _ answers question_ids_NoDup Hr).
Qed.

Lemma ask_sliders_spec_witness :
  (forall q, q ∈ question_ids -> 1 <= default 3 (held_answers !! q) <= 5) /\
  exists final,
    ask_sliders keep_default held_answers = Some final /\
    (final !! "A1"%string = Some 3 /\ final !! "B2"%string = Some 5 /\
     final !! "notes"%string = Some 9) /\
    forall q, final !! q =
              if decide (q ∈ question_ids)
              then Some (keep_default q (default 3 (held_answers !! q)))
              else held_answers !! q.
Proof.
  assert (forall q, q ∈ question_ids -> 1 <= default 3 (held_answers !! q) <= 5) as Hr.
  { intros q Hq. unfold question_ids, QUESTIONS in Hq. cbn [fmap list_fmap fst] in Hq.
    repeat (apply elem_of_cons in Hq as [->|Hq]; [by vm_compute|]).
    destruct (proj1 (elem_of_nil _) Hq). }
  assert (forall q, q ∈ ["A1"; "B2"]%string -> q ∈ question_ids) as Hin.
  { intros q Hq. unfold question_ids, QUESTIONS. cbn [fmap list_fmap fst].
    repeat (apply elem_of_cons in Hq as [->|Hq];
            [repeat first [apply list_elem_of_here | apply list_elem_of_further]|]).
    destruct (proj1 (elem_of_nil _) Hq). }
  assert ("notes"%string ∉ question_ids) as Hout.
  { unfold question_ids, QUESTIONS. cbn [fmap list_fmap fst]. intros Hq.
    repeat (apply elem_of_cons in Hq as [Hq|Hq]; [discriminate Hq|]).
    destruct (proj1 (elem_of_nil _) Hq). }
  split; [exact Hr|].
  destruct (ask_sliders_spec keep_default held_answers Hr) as (final & Hf & Hl).
  exists final. split; [exact Hf|]. split; [|exact Hl].
  rewrite !Hl.
  rewrite !decide_True
    by (apply Hin; repeat first [apply list_elem_of_here | apply list_elem_of_further]).
  rewrite decide_False by exact Hout.
  split_and!; vm_compute; reflexivity.
Defined.

(** ** The answers of the page *)

Lemma before_sliders_on_scale parse_int query uploaded :
  on_scale (match uploaded with
            | Some rows => load_rows rows (prefill_answers_from_query parse_int query)
            | None => prefill_answers_from_query parse_int query
            end).
Proof.
  destruct uploaded as [rows|]; [apply load_rows_on_scale|]; apply prefill_on_scale.
Qed.

Lemma before_sliders_keys parse_int query uploaded q :
  is_Some (match uploaded with
           | Some rows => load_rows rows (prefill_answers_from_query parse_int query)
           | None => prefill_answers_from_query parse_int query
           end !! q) ->
  q ∈ question_ids.
Proof.
  destruct uploaded as [rows|]; [|apply prefill_keys].
  intros [Hq|Hq]%load_rows_keys; [by eapply prefill_keys|done].
Qed.

Lemma default_on_scale (answers : gmap string Z) q :
  on_scale answers -> 1 <= default 3 (answers !! q) <= 5.
Proof.
  intros Ha. destruct (answers !! q) as [v|] eqn:Hq; simpl; [by eapply Ha|lia].
Qed.

(** Whatever the query string and the uploaded sheet hold, no slider is
    handed a default outside [[1,5]]: the page always gets its answers, they
    cover exactly the ten questions, and each of them is the position of a
    slider, hence in [[1,5]] when the sliders keep to their range. *)
Lemma page_answers_shape
    (parse_int : string -> option Z) (query : gmap string string)
    (uploaded : option (list upload_row)) (ui : string -> Z -> Z) :
  exists answers,
    page_answers parse_int query uploaded ui = Some answers /\
    (forall q, is_Some (answers !! q) <-> q ∈ question_ids) /\
    (slider_contract ui -> on_scale answers).
Proof.
  unfold page_answers.
  set (before := match uploaded with
                 | Some rows => load_rows rows (prefill_answers_from_query parse_int query)
                 | None => prefill_answers_from_query parse_int query
                 end).
  assert (on_scale before) as Hscale by apply before_sliders_on_scale.
  destruct (slider_steps_accept ui _ before question_ids_NoDup) as (final & Hf & Hl).
  { intros q _. by apply default_on_scale. }
  exists final. split; [exact Hf|]. split.
  - intros q. rewrite Hl. destruct (decide (q ∈ question_ids)) as [Hq|Hq].
    + split; [done|eauto].
    + split; [|done]. intros Hb. exfalso. apply Hq.
      by eapply before_sliders_keys.
  - intros Hui q v. rewrite Hl.
    destruct (decide (q ∈ question_ids)) as [Hq|Hq].
    + intros [= <-]. apply Hui.
    + apply Hscale.
Qed.

(** ** Exact arithmetic on the scores of the page *)

Lemma same_float_eq x y : same_float x y = true -> x = y.
Proof.
  destruct x as [s1|s1| |s1 m1 e1], y as [s2|s2| |s2 m2 e2]; simpl; try done.
  - by intros ->%Bool.eqb_prop.
  - by intros ->%Bool.eqb_prop.
  - intros [[->%Bool.eqb_prop ->%Pos.eqb_eq]%andb_true_iff ->%Z.eqb_eq]%andb_true_iff.
    done.
Qed.

Lemma forallb_seqZ (f : Z -> bool) (lo len : Z) :
  forallb f (seqZ lo len) = true -> forall i, lo <= i < lo + len -> f i = true.
Proof.
  intros Hf i Hi. rewrite forallb_forall in Hf. apply Hf.
  apply list_elem_of_In, elem_of_seqZ. lia.
Qed.

(** Adding a pillar score to a partial sum of pillar scores is exact. *)
Lemma add_tens k j :
  0 <= k <= 40 -> 0 <= j <= 10 ->
  F64.add (F64.of_Z (10 * k)) (F64.of_Z (10 * j)) = F64.of_Z (10 * (k + j)).
Proof.
  intros Hk Hj. apply same_float_eq.
  assert (forallb (fun k => forallb (fun j =>
            same_float (F64.add (F64.of_Z (10 * k)) (F64.of_Z (10 * j)))
                       (F64.of_Z (10 * (k + j))))
            (seqZ 0 11)) (seqZ 0 41) = true) as Htable by (by vm_compute).
  pose proof (forallb_seqZ _ 0 41 Htable k ltac:(lia)) as Hrow. cbv beta in Hrow.
  exact (forallb_seqZ _ 0 11 Hrow j ltac:(lia)).
Qed.

(** Dividing the sum of the five pillar scores by 5 is exact. *)
Lemma div_five s :
  0 <= s <= 50 ->
  F64.div (F64.of_Z (10 * s)) (F64.of_Z 5) = F64.of_Z (2 * s).
Proof.
  intros Hs. apply same_float_eq.
  assert (forallb (fun s => same_float (F64.div (F64.of_Z (10 * s)) (F64.of_Z 5))
                                         (F64.of_Z (2 * s)))
            (seqZ 0 51) = true) as Htable by (by vm_compute).
  exact (forallb_seqZ _ 0 51 Htable s ltac:(lia)).
Qed.

Lemma round_percent n :
  0 <= n <= 100 -> F64.py_round (F64.of_Z n) = Ok n.
Proof.
  intros Hn.
  assert (forallb (fun n => match F64.py_round (F64.of_Z n) with
                            | Ok r => r =? n
                            | Raise _ => false
                            end) (seqZ 0 101) = true) as Htable by (by vm_compute).
  pose proof (forallb_seqZ _ 0 101 Htable n ltac:(lia)) as Hr. simpl in Hr.
  destruct (F64.py_round _) as [r|]; [|done]. by apply Z.eqb_eq in Hr as ->.
Qed.

Lemma py_sum_tens s1 s2 s3 s4 s5 :
  0 <= s1 <= 10 -> 0 <= s2 <= 10 -> 0 <= s3 <= 10 -> 0 <= s4 <= 10 -> 0 <= s5 <= 10 ->
  F64.py_sum [F64.of_Z (10 * s1); F64.of_Z (10 * s2); F64.of_Z (10 * s3);
              F64.of_Z (10 * s4); F64.of_Z (10 * s5)]
  = F64.of_Z (10 * (s1 + s2 + s3 + s4 + s5)).
Proof.
  intros. unfold F64.py_sum. cbn [fold_left].
  change (F64.of_Z 0) with (F64.of_Z (10 * 0)).
  rewrite !add_tens by lia. f_equal.
Qed.

Lemma tier_lookup_percent n :
  0 <= n <= 100 ->
  tier_lookup TIER_BANDS n =
    if n <=? 39 then "Emerging"%string
    else if n <=? 59 then "Developing"%string
    else if n <=? 79 then "Established"%string
    else "Optimized"%string.
Proof.
  intros Hn. unfold TIER_BANDS, tier_lookup, in_band, band_lo, band_hi, band_name.
  cbn [fst snd].
  repeat match goal with
         | |- context [?a <=? ?b] => destruct (Z.leb_spec a b)
         end; simpl; try done; lia.
Qed.

Lemma total_answers_pillars answers :
  total_answers answers =
  sum_Z (gather answers ["A1"; "A2"]%string) + sum_Z (gather answers ["B1"; "B2"]%string) +
  sum_Z (gather answers ["C1"; "C2"]%string) + sum_Z (gather answers ["D1"; "D2"]%string) +
  sum_Z (gather answers ["E1"; "E2"]%string).
Proof.
  unfold total_answers, question_ids, QUESTIONS, sum_Z, gather.
  cbn [fmap list_fmap fst fold_left]. lia.
Qed.

Lemma pair_sum_range answers lo q1 q2 :
  0 <= lo ->
  (forall q v, answers !! q = Some v -> lo <= v <= 5) ->
  2 * lo <= sum_Z (gather answers [q1; q2]) <= 10 \/
  (0 <= sum_Z (gather answers [q1; q2]) <= 10).
Proof.
  intros Hlo Hr. right.
  pose proof (answer_on_scale answers lo q1 Hlo Hr).
  pose proof (answer_on_scale answers lo q2 Hlo Hr).
  unfold sum_Z, gather. cbn [fmap list_fmap fold_left]. lia.
Qed.

Lemma compute_scores_exact (answers : gmap string Z) :
  (forall q v, answers !! q = Some v -> 0 <= v <= 5) ->
  exists ps,
    compute_scores answers = Ok (ps, F64.of_Z (2 * total_answers answers)) /\
    Forall2 (scored_exactly answers) PILLARS ps /\
    0 <= 2 * total_answers answers <= 100.
Proof.
  intros Hr.
  destruct (compute_scores_on_scale answers 0 ltac:(lia) Hr) as (ps & overall & Hc & Hps).
  exists ps.
  assert (forall q1 q2, 0 <= sum_Z (gather answers [q1; q2]) <= 10) as Hpair.
  { intros q1 q2. by destruct (pair_sum_range answers 0 q1 q2 ltac:(lia) Hr). }
  pose proof (Hpair "A1" "A2")%string. pose proof (Hpair "B1" "B2")%string.
  pose proof (Hpair "C1" "C2")%string. pose proof (Hpair "D1" "D2")%string.
  pose proof (Hpair "E1" "E2")%string.
  split; [|split; [done|rewrite total_answers_pillars; lia]].
  rewrite Hc. do 2 f_equal.
  apply compute_scores_in_Ok in Hc as (_ & _ & ->).
  unfold PILLARS in Hps.
  repeat (apply Forall2_cons_inv_l in Hps as (? & ? & Hp & Hps & ->);
          unfold scored_exactly in Hp; cbn [fst snd] in Hp; subst).
  apply Forall2_nil_inv_l in Hps as ->.
  unfold ps_score. cbn [fmap list_fmap fst snd length].
  rewrite py_sum_tens by done.
  change (F64.of_Z (Z.of_nat 5)) with (F64.of_Z 5).
  rewrite div_five by lia.
  by rewrite total_answers_pillars.
Qed.



Lemma total_answers_complete (answers : gmap string Z) :
  on_scale answers ->
  (forall q, q ∈ question_ids -> is_Some (answers !! q)) ->
  10 <= total_answers answers <= 50.
Proof.
  intros Hs Hall.
  assert (Forall (fun q => 1 <= default 0 (answers !! q) <= 5) question_ids) as HF.
  { apply Forall_forall. intros q Hq. destruct (Hall q Hq) as [v Hv].
    rewrite Hv. by eapply Hs. }
  unfold total_answers, sum_Z, gather.
  unfold question_ids, QUESTIONS in *. cbn [fmap list_fmap fst fold_left] in *.
  repeat (apply Forall_cons in HF as [? HF]). lia.
Qed.

(** Whatever the query string and the uploaded sheet hold, no slider is
    handed a default outside [[1,5]]: the page always gets its answers, and
    they cover exactly the ten questions.  When the sliders keep to their
    range, every answer lies in [[1,5]], [compute_scores] returns, the
    overall score is the float [2 * total] with [total] between 10 and 50,
    and [tier_for] names one of the four bands. *)
Theorem page_scores
    (parse_int : string -> option Z) (query : gmap string string)
    (uploaded : option (list upload_row)) (ui : string -> Z -> Z) :
  exists answers,
    page_answers parse_int query uploaded ui = Some answers /\
    (forall q, is_Some (answers !! q) <-> q ∈ question_ids) /\
    (slider_contract ui ->
     on_scale answers /\
     10 <= total_answers answers <= 50 /\
     exists ps label,
       compute_scores answers = Ok (ps, F64.of_Z (2 * total_answers answers)) /\
       tier_for (F64.of_Z (2 * total_answers answers)) = Ok label /\
       label ∈ band_name <$> TIER_BANDS).
Proof.
  destruct (page_answers_shape parse_int query uploaded ui) as (answers & Hp & Hk & Hs).
  exists answers. split_and!; [done|done|].
  intros Hui. specialize (Hs Hui).
  assert (10 <= total_answers answers <= 50) as Ht.
  { apply total_answers_complete; [done|]. intros q Hq. by apply Hk. }
  split_and!; [done|lia|lia|].
  destruct (compute_scores_exact answers) as (ps & Hc & _ & _).
  { intros q v Hq. specialize (Hs q v Hq). lia. }
  exists ps. eexists. split_and!; [exact Hc| |].
  - rewrite (tier_for_rounded _ (2 * total_answers answers)) by (apply round_percent; lia).
    reflexivity.
  - rewrite tier_lookup_percent by lia.
    unfold TIER_BANDS, band_name. cbn [fmap list_fmap fst].
    repeat match goal with
           | |- context [if ?b then _ else _] => destruct b
           end;
      repeat first [apply list_elem_of_here | apply list_elem_of_further].
Qed.

(** ** The tier as a function of the score *)

Lemma digits2_pos_bounds p :
  2 ^ (Zpos (digits2_pos p) - 1) <= Zpos p < 2 ^ Zpos (digits2_pos p).
Proof.
  induction p as [p IH|p IH|]; cbn [digits2_pos].
  - rewrite Pos2Z.inj_succ.
    replace (Z.succ (Zpos (digits2_pos p)) - 1) with (Z.succ (Zpos (digits2_pos p) - 1)) by lia.
    rewrite !Z.pow_succ_r by lia. lia.
  - rewrite Pos2Z.inj_succ.
    replace (Z.succ (Zpos (digits2_pos p)) - 1) with (Z.succ (Zpos (digits2_pos p) - 1)) by lia.
    rewrite !Z.pow_succ_r by lia. lia.
  - simpl. lia.
Qed.

Lemma binary64_finite s m e :
  binary64 (S754_finite s m e) ->
  -1074 <= e <= 971 /\ Zpos m < 2 ^ 53 /\ (-1074 < e -> 2 ^ 52 <= Zpos m).
Proof.
  unfold binary64, valid_binary, bounded, canonical_mantissa, fexp, emin, F64.prec, F64.emax.
  intros [Hc%Z.eqb_eq He%Z.leb_le]%andb_true_iff.
  pose proof (digits2_pos_bounds m) as [Hlo Hhi].
  assert (Zpos (digits2_pos m) <= 53) as Hd by lia.
  split; [lia|]. split.
  - eapply Z.lt_le_trans; [exact Hhi|]. apply Z.pow_le_mono_r; lia.
  - intros Hn. assert (Zpos (digits2_pos m) = 53) as Hd' by lia.
    rewrite Hd' in Hlo. exact Hlo.
Qed.

Lemma scaled_order_step m1 e1 m2 e2 :
  -1074 <= e1 -> Zpos m1 < 2 ^ 53 -> 2 ^ 52 <= Zpos m2 -> e1 < e2 ->
  Zpos m1 * 2 ^ (e1 + 1074) < Zpos m2 * 2 ^ (e2 + 1074).
Proof.
  intros He1 Hm1 Hm2 He.
  assert (0 < 2 ^ (e1 + 1074)) as HA by (apply Z.pow_pos_nonneg; lia).
  assert (2 * 2 ^ (e1 + 1074) <= 2 ^ (e2 + 1074)) as HB.
  { rewrite <- Z.pow_succ_r by lia. apply Z.pow_le_mono_r; lia. }
  change (2 ^ 53) with (2 * 2 ^ 52) in Hm1.
  assert (0 < 2 ^ 52) as HP by done.
  set (A := 2 ^ (e1 + 1074)) in *. set (B := 2 ^ (e2 + 1074)) in *.
  set (P := 2 ^ 52) in *.
  apply Z.lt_le_trans with (P * (2 * A)).
  - replace (P * (2 * A)) with (2 * P * A) by ring.
    apply Z.mul_lt_mono_pos_r; lia.
  - apply Z.le_trans with (P * B).
    + apply Z.mul_le_mono_nonneg_l; lia.
    + apply Z.mul_le_mono_nonneg_r; lia.
Qed.

Lemma scaled_order_pos m1 e1 m2 e2 :
  binary64 (S754_finite false m1 e1) -> binary64 (S754_finite false m2 e2) ->
  (e1 < e2 \/ (e1 = e2 /\ Zpos m1 < Zpos m2)) <->
  Zpos m1 * 2 ^ (e1 + 1074) < Zpos m2 * 2 ^ (e2 + 1074).
Proof.
  intros (He1 & Hm1 & Hn1)%binary64_finite (He2 & Hm2 & Hn2)%binary64_finite.
  assert (forall m e m' e',
    -1074 <= e -> Zpos m < 2 ^ 53 -> (-1074 < e' -> 2 ^ 52 <= Zpos m') ->
    e < e' \/ (e = e' /\ Zpos m < Zpos m') ->
    Zpos m * 2 ^ (e + 1074) < Zpos m' * 2 ^ (e' + 1074)) as Hfwd.
  { intros m e m' e' He Hm Hn' [Hlt|[-> Hlt]].
    - apply scaled_order_step; try done. apply Hn'. lia.
    - apply Z.mul_lt_mono_pos_r; [apply Z.pow_pos_nonneg; lia|done]. }
  split; [apply Hfwd; tauto|].
  intros Hlt.
  destruct (Z.lt_trichotomy e1 e2) as [?|[->|?]]; [by left| |].
  - destruct (Z.lt_trichotomy (Zpos m1) (Zpos m2)) as [?|[Heq|?]]; [by right| |].
    + rewrite Heq in Hlt. lia.
    + assert (Zpos m2 * 2 ^ (e2 + 1074) < Zpos m1 * 2 ^ (e2 + 1074)); [|lia].
      apply Hfwd; [lia|lia|done|by right].
  - assert (Zpos m2 * 2 ^ (e2 + 1074) < Zpos m1 * 2 ^ (e1 + 1074)); [|lia].
    apply Hfwd; [lia|lia|done|by left].
Qed.

Lemma scaled_pos m e : -1074 <= e -> 0 < Zpos m * 2 ^ (e + 1074).
Proof. intros He. apply Z.mul_pos_pos; [done|]. apply Z.pow_pos_nonneg; lia. Qed.

(** On finite binary64 numbers [<] is the order of the values. *)
Lemma ltb_scaled x y :
  binary64 x -> binary64 y -> is_finite x = true -> is_finite y = true ->
  F64.ltb x y = true <-> scaled x < scaled y.
Proof.
  intros Hx Hy Hfx Hfy.
  rewrite FloatOrder.ltb_rank by (by destruct x, y).
  destruct x as [sx| | |sx mx ex], y as [sy| | |sy my ey]; try done;
    unfold F64.lex_lt, F64.rank, scaled; cbn [fst snd].
  - destruct sx, sy; lia.
  - pose proof (binary64_finite _ _ _ Hy) as (He & _ & _).
    pose proof (scaled_pos my ey ltac:(lia)).
    destruct sy; cbn [cond_Zopp fst snd]; lia.
  - pose proof (binary64_finite _ _ _ Hx) as (He & _ & _).
    pose proof (scaled_pos mx ex ltac:(lia)).
    destruct sx; cbn [cond_Zopp fst snd]; lia.
  - pose proof (binary64_finite _ _ _ Hx) as (Hex & _ & _).
    pose proof (binary64_finite _ _ _ Hy) as (Hey & _ & _).
    pose proof (scaled_pos mx ex ltac:(lia)).
    pose proof (scaled_pos my ey ltac:(lia)).
    destruct sx, sy; cbn [cond_Zopp fst snd].
    + pose proof (scaled_order_pos my ey mx ex Hy Hx) as Ho.
      assert (Zneg mx < Zneg my <-> Zpos my < Zpos mx) as Hneg by lia.
      lia.
    + lia.
    + lia.
    + pose proof (scaled_order_pos mx ex my ey Hx Hy) as Ho. lia.
Qed.

Lemma round_div_exact q d : 0 < d -> round_div (q * d) d = q.
Proof.
  intros Hd. unfold round_div.
  rewrite Z.div_mul, Z.mod_mul by lia.
  assert ((2 * 0 ?= d) = Lt) as -> by (apply Z.compare_lt_iff; lia).
  done.
Qed.

Lemma round_div_scale a d c :
  0 < d -> 0 < c -> round_div (a * c) (d * c) = round_div a d.
Proof.
  intros Hd Hc. unfold round_div.
  rewrite Z.div_mul_cancel_r, Z.mul_mod_distr_r by lia.
  replace (2 * (a mod d * c)) with (2 * (a mod d) * c) by ring.
  by rewrite <- Zmult_compare_compat_r by lia.
Qed.

Lemma round_half_even_scaled m e :
  -1074 <= e ->
  F64.round_half_even m e = round_div (Zpos m * 2 ^ (e + 1074)) (2 ^ 1074).
Proof.
  intros He. destruct e as [|p|p]; unfold F64.round_half_even.
  - rewrite Z.add_0_l, Z.pow_0_r, round_div_exact by done. lia.
  - rewrite Z.pow_add_r, Z.mul_assoc, round_div_exact by lia. done.
  - fold (round_div (Zpos m) (Z.pow_pos 2 p)).
    rewrite <- (round_div_scale (Zpos m) (Z.pow_pos 2 p) (2 ^ (Zneg p + 1074))).
    + f_equal. change (Z.pow_pos 2 p) with (2 ^ Zpos p).
      rewrite <- Z.pow_add_r by lia. f_equal. lia.
    + change (Z.pow_pos 2 p) with (2 ^ Zpos p). apply Z.pow_pos_nonneg; lia.
    + apply Z.pow_pos_nonneg; lia.
Qed.

(** How [round_div] compares with an integer [n]: a tie goes up to [n]
    only when [n] is even. *)
Lemma round_div_ge_even a d n :
  0 < d -> Z.even n = true ->
  n <= round_div a d <-> (2 * n - 1) * d <= 2 * a.
Proof.
  intros Hd Hn. unfold round_div.
  pose proof (Z.div_mod a d ltac:(lia)) as Ha.
  pose proof (Z.mod_pos_bound a d Hd) as Hr.
  set (q := a / d) in *. set (r := a mod d) in *.
  assert ((2 * n - 1) * d <= 2 * a <-> (2 * n - 1) * d <= 2 * q * d + 2 * r) as -> by lia.
  destruct (Z.compare_spec (2 * r) d) as [Heq|Hlt|Hgt].
  - assert (2 * q * d + 2 * r = (2 * q + 1) * d) as -> by lia.
    rewrite <- Z.mul_le_mono_pos_r by done.
    destruct (Z.even q) eqn:Hq.
    + apply Z.even_spec in Hn as [n' ->], Hq as [q' ->]. lia.
    + lia.
  - split; intros H.
    + apply Z.le_trans with (2 * q * d); [|lia].
      apply Z.le_trans with ((2 * q - 1) * d); [apply Z.mul_le_mono_pos_r; lia|lia].
    + assert ((2 * n - 1) * d < (2 * q + 1) * d) as Hlt' by lia.
      apply Z.mul_lt_mono_pos_r in Hlt'; lia.
  - split; intros H.
    + apply Z.le_trans with ((2 * q + 1) * d); [apply Z.mul_le_mono_pos_r; lia|lia].
    + assert ((2 * n - 1) * d < (2 * q + 2) * d) as Hlt' by lia.
      apply Z.mul_lt_mono_pos_r in Hlt'; lia.
Qed.

Lemma round_div_ge_odd a d n :
  0 < d -> Z.odd n = true ->
  n <= round_div a d <-> (2 * n - 1) * d < 2 * a.
Proof.
  intros Hd Hn. unfold round_div.
  pose proof (Z.div_mod a d ltac:(lia)) as Ha.
  pose proof (Z.mod_pos_bound a d Hd) as Hr.
  set (q := a / d) in *. set (r := a mod d) in *.
  assert ((2 * n - 1) * d < 2 * a <-> (2 * n - 1) * d < 2 * q * d + 2 * r) as -> by lia.
  destruct (Z.compare_spec (2 * r) d) as [Heq|Hlt|Hgt].
  - assert (2 * q * d + 2 * r = (2 * q + 1) * d) as -> by lia.
    rewrite <- Z.mul_lt_mono_pos_r by done.
    destruct (Z.even q) eqn:Hq.
    + lia.
    + apply Z.odd_spec in Hn as [n' ->].
      rewrite <- Z.negb_odd in Hq. apply negb_false_iff, Z.odd_spec in Hq as [q' ->]. lia.
  - split; intros H.
    + apply Z.lt_le_trans with (2 * q * d); [|lia].
      apply Z.le_lt_trans with ((2 * q - 1) * d); [apply Z.mul_le_mono_pos_r; lia|lia].
    + assert ((2 * n - 1) * d < (2 * q + 1) * d) as Hlt' by lia.
      apply Z.mul_lt_mono_pos_r in Hlt'; lia.
  - split; intros H.
    + apply Z.le_lt_trans with ((2 * q + 1) * d); [apply Z.mul_le_mono_pos_r; lia|lia].
    + assert ((2 * n - 1) * d < (2 * q + 2) * d) as Hlt' by lia.
      apply Z.mul_lt_mono_pos_r in Hlt'; lia.
Qed.

Lemma py_round_scaled x :
  binary64 x -> is_finite x = true ->
  F64.py_round x =
  Ok (if scaled x <? 0 then - round_div (- scaled x) (2 ^ 1074)
      else round_div (scaled x) (2 ^ 1074)).
Proof.
  intros Hx Hf. destruct x as [s| | |s m e]; try done.
  pose proof (binary64_finite _ _ _ Hx) as (He & _ & _).
  pose proof (scaled_pos m e ltac:(lia)) as Hpos.
  unfold F64.py_round, scaled. rewrite round_half_even_scaled by lia.
  destruct s; cbn [cond_Zopp].
  - destruct (Z.ltb_spec (- (Zpos m * 2 ^ (e + 1074))) 0); [|lia].
    by rewrite Z.opp_involutive.
  - destruct (Z.ltb_spec (Zpos m * 2 ^ (e + 1074)) 0); [lia|done].
Qed.

Lemma tier_lookup_cases r :
  tier_lookup TIER_BANDS r =
    if r <? 0 then "Unknown"%string
    else if r <=? 39 then "Emerging"%string
    else if r <=? 59 then "Developing"%string
    else if r <=? 79 then "Established"%string
    else if r <=? 100 then "Optimized"%string
    else "Unknown"%string.
Proof.
  unfold TIER_BANDS, tier_lookup, in_band, band_lo, band_hi, band_name.
  cbn [fst snd].
  repeat match goal with
         | |- context [?a <=? ?b] => destruct (Z.leb_spec a b)
         | |- context [?a <? ?b] => destruct (Z.ltb_spec a b)
         end; simpl; try done; lia.
Qed.

Lemma leb_scaled x y :
  binary64 x -> binary64 y -> is_finite x = true -> is_finite y = true ->
  F64.leb x y = true <-> scaled x <= scaled y.
Proof.
  intros Hx Hy Hfx Hfy.
  rewrite FloatOrder.leb_ltb by (by destruct x, y).
  rewrite <- not_true_iff_false, ltb_scaled by done. lia.
Qed.

Lemma threshold_values :
  scaled minus_half = - 2 ^ 1073 /\ scaled f39_5 = 79 * 2 ^ 1073 /\
  scaled f59_5 = 119 * 2 ^ 1073 /\ scaled f79_5 = 159 * 2 ^ 1073 /\
  scaled f100_5 = 201 * 2 ^ 1073.
Proof. split_and!; by vm_compute. Qed.

Lemma round_div_nonneg a d : 0 < d -> 0 <= a -> 0 <= round_div a d.
Proof.
  intros Hd Ha. apply (round_div_ge_even a d 0 Hd eq_refl). lia.
Qed.

(** For every binary64 score, [tier_for] is a step function of the score
    itself: it raises on NaN and on the infinities, and otherwise the bands
    change at 39.5, 59.5 and 79.5 (each of them already in the upper band,
    their roundings being even), "Unknown" lies below -0.5 and above
    100.5. *)
Theorem tier_for_thresholds (x : float) :
  binary64 x -> tier_for x = tier_by_thresholds x.
Proof.
  intros Hx. unfold tier_by_thresholds.
  destruct (F64.is_nan x) eqn:Hnan; [by destruct x|].
  destruct (F64.is_infinity x) eqn:Hinf; [by destruct x|].
  assert (is_finite x = true) as Hf by (by destruct x).
  rewrite (tier_for_rounded _ _ (py_round_scaled x Hx Hf)), tier_lookup_cases.
  destruct threshold_values as (Vm & V39 & V59 & V79 & V100).
  assert (forall t, binary64 t -> is_finite t = true ->
            (F64.ltb x t = true <-> scaled x < scaled t) /\
            (F64.leb x t = true <-> scaled x <= scaled t)) as Hcmp.
  { intros t Ht Hft. split; [by apply ltb_scaled|by apply leb_scaled]. }
  destruct (Hcmp minus_half eq_refl eq_refl) as [Hm _].
  destruct (Hcmp f39_5 eq_refl eq_refl) as [H39 _].
  destruct (Hcmp f59_5 eq_refl eq_refl) as [H59 _].
  destruct (Hcmp f79_5 eq_refl eq_refl) as [H79 _].
  destruct (Hcmp f100_5 eq_refl eq_refl) as [_ H100].
  rewrite Vm in Hm. rewrite V39 in H39. rewrite V59 in H59.
  rewrite V79 in H79. rewrite V100 in H100. clear Hcmp Vm V39 V59 V79 V100.
  assert (2 ^ 1074 = 2 * 2 ^ 1073) as HD by (by rewrite <- Z.pow_succ_r).
  assert (0 < 2 ^ 1073) as HH by (by apply Z.pow_pos_nonneg).
  set (z := scaled x) in *. set (D := 2 ^ 1074) in *. set (H := 2 ^ 1073) in *.
  destruct (Z.ltb_spec z 0) as [Hz|Hz].
  - pose proof (round_div_ge_odd (- z) D 1 ltac:(lia) eq_refl) as R1.
    pose proof (round_div_nonneg (- z) D ltac:(lia) ltac:(lia)) as R0.
    set (r := round_div (- z) D) in *.
    destruct (F64.ltb x minus_half); [destruct (Z.ltb_spec (- r) 0); [done|lia]|].
    destruct (F64.ltb x f39_5); [|lia].
    repeat match goal with
           | |- context [?a <=? ?b] => destruct (Z.leb_spec a b)
           | |- context [?a <? ?b] => destruct (Z.ltb_spec a b)
           end; try done; lia.
  - pose proof (round_div_nonneg z D ltac:(lia) Hz) as R0.
    pose proof (round_div_ge_even z D 40 ltac:(lia) eq_refl) as R40.
    pose proof (round_div_ge_even z D 60 ltac:(lia) eq_refl) as R60.
    pose proof (round_div_ge_even z D 80 ltac:(lia) eq_refl) as R80.
    pose proof (round_div_ge_odd z D 101 ltac:(lia) eq_refl) as R101.
    set (r := round_div z D) in *.
    destruct (F64.ltb x minus_half); [lia|].
    destruct (Z.ltb_spec r 0); [lia|].
    destruct (F64.ltb x f39_5);
      [destruct (Z.leb_spec r 39); [done|lia]|].
    destruct (Z.leb_spec r 39); [lia|].
    destruct (F64.ltb x f59_5);
      [destruct (Z.leb_spec r 59); [done|lia]|].
    destruct (Z.leb_spec r 59); [lia|].
    destruct (F64.ltb x f79_5);
      [destruct (Z.leb_spec r 79); [done|lia]|].
    destruct (Z.leb_spec r 79); [lia|].
    destruct (F64.leb x f100_5);
      destruct (Z.leb_spec r 100); try done; lia.
Qed.

Lemma tier_for_thresholds_witness :
  binary64 f79_5 /\ tier_for f79_5 = tier_by_thresholds f79_5.
Proof. split; [reflexivity | exact (tier_for_thresholds f79_5 eq_refl)]. Defined.

(** ** Commentary and the rounded score *)

Lemma py_round_finite x r : F64.py_round x = Ok r -> is_finite x = true.
Proof. by destruct x. Qed.

Lemma whole_values :
  scaled (F64.of_Z 40) = 80 * 2 ^ 1073 /\ scaled (F64.of_Z 60) = 120 * 2 ^ 1073 /\
  scaled (F64.of_Z 80) = 160 * 2 ^ 1073.
Proof. split_and!; by vm_compute. Qed.

(** The commentary of a score never claims more than the rounded score
    printed beside it would earn, and it claims less exactly when the score
    lies within half a point below 40, 60 or 80. *)
Theorem commentary_vs_rounded (pillar_name : string) (x : float) (r : Z) :
  binary64 x -> F64.py_round x = Ok r ->
  pillar_commentary pillar_name x = pillar_name +:+ commentary_text (commentary_floor x) /\
  commentary_floor x <= band_floor r /\
  (commentary_floor x < band_floor r <-> rounds_up_to_threshold x = true).
Proof.
  intros Hx Hr. pose proof (py_round_finite _ _ Hr) as Hf.
  split.
  { unfold pillar_commentary, commentary_floor.
    by repeat match goal with |- context [F64.leb ?a ?b] => destruct (F64.leb a b) end. }
  rewrite (py_round_scaled x Hx Hf) in Hr. injection Hr as <-.
  destruct threshold_values as (_ & V39 & V59 & V79 & _).
  destruct whole_values as (V40 & V60 & V80).
  assert (forall t, binary64 t -> is_finite t = true ->
            (F64.ltb x t = true <-> scaled x < scaled t) /\
            (F64.leb t x = true <-> scaled t <= scaled x)) as Hcmp.
  { intros t Ht Hft. split; [by apply ltb_scaled|by apply leb_scaled]. }
  destruct (Hcmp f39_5 eq_refl eq_refl) as [_ H39].
  destruct (Hcmp f59_5 eq_refl eq_refl) as [_ H59].
  destruct (Hcmp f79_5 eq_refl eq_refl) as [_ H79].
  destruct (Hcmp (F64.of_Z 40) eq_refl eq_refl) as [L40 H40].
  destruct (Hcmp (F64.of_Z 60) eq_refl eq_refl) as [L60 H60].
  destruct (Hcmp (F64.of_Z 80) eq_refl eq_refl) as [L80 H80].
  rewrite V39 in H39. rewrite V59 in H59. rewrite V79 in H79.
  rewrite V40 in L40, H40. rewrite V60 in L60, H60. rewrite V80 in L80, H80.
  clear Hcmp V39 V59 V79 V40 V60 V80.
  assert (2 ^ 1074 = 2 * 2 ^ 1073) as HD by (by rewrite <- Z.pow_succ_r).
  assert (0 < 2 ^ 1073) as HH by (by apply Z.pow_pos_nonneg).
  unfold commentary_floor, rounds_up_to_threshold, band_floor.
  set (z := scaled x) in *. set (D := 2 ^ 1074) in *. set (H := 2 ^ 1073) in *.
  rewrite !orb_true_iff, !andb_true_iff, H39, H59, H79, L40, L60, L80.
  clear H39 H59 H79 L40 L60 L80.
  destruct (F64.leb (F64.of_Z 80) x);
    [assert (160 * H <= z) by (by apply H80)
    |assert (¬ 160 * H <= z) by (by rewrite <- H80)]; clear H80;
  (destruct (F64.leb (F64.of_Z 60) x);
    [assert (120 * H <= z) by (by apply H60)
    |assert (¬ 120 * H <= z) by (by rewrite <- H60)]; clear H60);
  (destruct (F64.leb (F64.of_Z 40) x);
    [assert (80 * H <= z) by (by apply H40)
    |assert (¬ 80 * H <= z) by (by rewrite <- H40)]; clear H40);
  try lia.
  all: destruct (Z.ltb_spec z 0) as [Hz|Hz].
  all: try (pose proof (round_div_nonneg (- z) D ltac:(lia) ltac:(lia)) as R0;
            set (r := round_div (- z) D) in *;
            destruct (Z.leb_spec 80 (- r)); [lia|];
            destruct (Z.leb_spec 60 (- r)); [lia|];
            destruct (Z.leb_spec 40 (- r)); lia).
  all: pose proof (round_div_ge_even z D 40 ltac:(lia) eq_refl) as R40;
       pose proof (round_div_ge_even z D 60 ltac:(lia) eq_refl) as R60;
       pose proof (round_div_ge_even z D 80 ltac:(lia) eq_refl) as R80;
       set (r := round_div z D) in *;
       destruct (Z.leb_spec 80 r); try lia;
       destruct (Z.leb_spec 60 r); try lia;
       destruct (Z.leb_spec 40 r); lia.
Qed.

Lemma commentary_vs_rounded_witness :
  F64.py_round f79_5 = Ok 80 /\
  pillar_commentary "E. Growth Readiness" f79_5
    = ("E. Growth Readiness" +:+ commentary_text (commentary_floor f79_5))%string /\
  commentary_floor f79_5 <= band_floor 80 /\
  (commentary_floor f79_5 < band_floor 80 <-> rounds_up_to_threshold f79_5 = true).
Proof.
  split; [reflexivity|].
  exact (commentary_vs_rounded "E. Growth Readiness" f79_5 80 eq_refl eq_refl).
Defined.

(** ** More on strengths, gaps and recommendations *)

(** The strengths are the first two pillars of the stable descending sort:
    the two highest-scoring pillars, the stronger first, pillars of equal
    score in their catalog order. *)
Theorem strengths_are_head_of_descending (ps : list pillar_score) :
  numbers ps_score ps ->
  exists top rest,
    top ++ rest ≡ₚ ps /\
    (derive_strengths_gaps ps).1 = ps_name <$> top /\
    length top = min 2 (length ps) /\
    StronglySorted scores_ge (top ++ rest) /\
    forall k, filter (has_key ps_score k) (top ++ rest) = filter (has_key ps_score k) ps.
Proof.
  intros Hn.
  set (sorted_p := py_sorted ps_score true ps).
  exists (take 2 sorted_p), (drop 2 sorted_p).
  rewrite take_drop. split_and!.
  - apply py_sorted_perm.
  - reflexivity.
  - rewrite length_take. unfold sorted_p. by rewrite py_sorted_length.
  - by apply sorted_descending_scores.
  - intros k. apply py_sorted_stable.
Qed.

Lemma strengths_are_head_of_descending_witness :
  numbers ps_score scenario_scores /\
  exists top rest,
    top ++ rest ≡ₚ scenario_scores /\
    (derive_strengths_gaps scenario_scores).1 = ps_name <$> top /\
    length top = min 2 (length scenario_scores) /\
    StronglySorted scores_ge (top ++ rest) /\
    forall k, filter (has_key ps_score k) (top ++ rest)
              = filter (has_key ps_score k) scenario_scores.
Proof.
  assert (numbers ps_score scenario_scores) as Hn.
  { unfold scenario_scores. repeat constructor. }
  split; [exact Hn | exact (strengths_are_head_of_descending scenario_scores Hn)].
Defined.

(** With distinct pillar names, some pillar is both a strength and a gap
    exactly when there are one to four pillars: the two slices of the sorted
    list meet below five entries and are apart from five on. *)
Theorem strengths_gaps_overlap (ps : list pillar_score) :
  NoDup (ps_name <$> ps) ->
  (exists n, n ∈ (derive_strengths_gaps ps).1 /\ n ∈ (derive_strengths_gaps ps).2) <->
  (1 <= length ps <= 4)%nat.
Proof.
  intros Hnd. unfold derive_strengths_gaps. cbn [fst snd].
  set (sorted_p := py_sorted ps_score true ps).
  assert (length sorted_p = length ps) as Hlen by apply py_sorted_length.
  assert (NoDup (ps_name <$> sorted_p)) as Hnd'.
  { unfold sorted_p. by rewrite py_sorted_perm. }
  unfold last_n. rewrite Hlen. split.
  - intros (n & Hs & Hg).
    destruct (decide (length ps <= 4)%nat) as [Hle|Hgt].
    + split; [|done]. destruct ps; [|simpl; lia].
      destruct sorted_p; [|done]. by apply elem_of_nil in Hs.
    + exfalso.
      rewrite <- (take_drop 2 sorted_p), fmap_app in Hnd'.
      apply NoDup_app in Hnd' as (_ & Hdisj & _).
      apply (Hdisj n Hs).
      apply list_elem_of_fmap in Hg as (p & -> & Hp).
      apply list_elem_of_fmap_2.
      apply list_elem_of_lookup in Hp as [i Hi].
      rewrite lookup_drop in Hi.
      apply list_elem_of_lookup. exists (length ps - 3 + i - 2)%nat.
      rewrite lookup_drop. rewrite <- Hi. f_equal. lia.
  - intros [Hlo Hhi].
    destruct (lookup_lt_is_Some_2 sorted_p (length ps - 3)) as [p Hp]; [lia|].
    exists (ps_name p). split.
    + apply list_elem_of_fmap_2, list_elem_of_lookup.
      exists (length ps - 3)%nat. rewrite lookup_take_lt by lia. done.
    + apply list_elem_of_fmap_2, list_elem_of_lookup.
      exists 0%nat. rewrite lookup_drop. rewrite <- Hp. f_equal. lia.
Qed.

Lemma strengths_gaps_overlap_witness :
  NoDup (ps_name <$> take 4 scenario_scores) /\
  exists n, n ∈ (derive_strengths_gaps (take 4 scenario_scores)).1 /\
            n ∈ (derive_strengths_gaps (take 4 scenario_scores)).2.
Proof.
  assert (NoDup (ps_name <$> take 4 scenario_scores)) as Hnd.
  { apply (bool_decide_unpack _). by vm_compute. }
  split; [exact Hnd|].
  apply (strengths_gaps_overlap (take 4 scenario_scores) Hnd).
  simpl. lia.
Defined.

Lemma key_le_antisym (a b : pillar_score) :
  F64.number (ps_score a) -> F64.number (ps_score b) ->
  key_le ps_score a b -> key_le ps_score b a ->
  F64.eqb (ps_score a) (ps_score b) = true.
Proof.
  unfold key_le. intros Ha Hb Hab Hba.
  apply FloatOrder.eqb_rank; [done|done|].
  apply not_true_iff_false in Hab, Hba.
  rewrite FloatOrder.ltb_rank in Hab, Hba by done.
  unfold F64.lex_lt in *.
  destruct (F64.rank (ps_score a)) as [[a1 a2] a3], (F64.rank (ps_score b)) as [[b1 b2] b3].
  cbn [fst snd] in *.
  assert (a1 = b1) by lia. assert (a2 = b2) by lia. assert (a3 = b3) by lia.
  congruence.
Qed.

(** Without ties the ascending sort is the descending sort read backwards,
    so [recommend_actions] serves the pillars of the gaps, in the opposite
    order: its first text is for the last gap. *)
Theorem recommendations_follow_gaps (ps : list pillar_score) :
  numbers ps_score ps -> no_ties ps ->
  exists lows,
    recommend_actions ps = action_for <$> lows /\
    ps_name <$> lows = reverse (derive_strengths_gaps ps).2.
Proof.
  intros Hn Hties.
  exists (take 3 (py_sorted ps_score false ps)). split; [done|].
  unfold derive_strengths_gaps. cbn [fst snd].
  assert (py_sorted ps_score false ps = reverse (py_sorted ps_score true ps)) as ->.
  { apply (StronglySorted_unique_strong (key_le ps_score)).
    - intros x1 x2 H1 H2 H12 H21.
      rewrite py_sorted_perm in H1. rewrite reverse_Permutation, py_sorted_perm in H2.
      apply Hties; [done|done|].
      unfold numbers in Hn. rewrite Forall_forall in Hn.
      apply key_le_antisym; auto.
    - by apply py_sorted_ascending.
    - apply (StronglySorted_reverse (flip (key_le ps_score))).
      by apply py_sorted_descending.
    - by rewrite reverse_Permutation, !py_sorted_perm. }
  rewrite take_reverse. unfold last_n. by rewrite fmap_reverse.
Qed.

Lemma recommendations_follow_gaps_witness :
  numbers ps_score distinct_scores /\
  exists lows,
    recommend_actions distinct_scores = action_for <$> lows /\
    ps_name <$> lows = reverse (derive_strengths_gaps distinct_scores).2.
Proof.
  assert (numbers ps_score distinct_scores) as Hn.
  { unfold distinct_scores. repeat constructor. }
  split; [exact Hn|].
  apply (recommendations_follow_gaps distinct_scores Hn).
  intros a b Ha Hb. unfold distinct_scores in Ha, Hb.
  repeat (apply elem_of_cons in Ha as [->|Ha]);
    try (by apply elem_of_nil in Ha);
    repeat (apply elem_of_cons in Hb as [->|Hb]);
    try (by apply elem_of_nil in Hb);
    (vm_compute; (reflexivity || discriminate)).
Defined.

(** ** When scoring fails *)

Lemma pscore_of_Raise vals e :
  pscore_of vals = Raise e -> vals <> [] /\ mean_overflows vals.
Proof.
  unfold pscore_of, mean_overflows. destruct vals as [|v vals]; [discriminate|].
  simpl is_empty. rewrite orb_false_l.
  destruct (all_zero _); [discriminate|].
  unfold F64.int_truediv.
  destruct (Z.eqb_spec (Z.of_nat (length (v :: vals))) 0) as [Hz|_]; [simpl in Hz; lia|].
  destruct (F64.is_infinity _) eqn:Hinf; [|discriminate]. done.
Qed.

(** [compute_scores] over an empty catalog divides by zero.  Over any other
    catalog the only exception is OverflowError, raised for a pillar that
    has questions and whose mean answer is beyond the range of a float. *)
Theorem compute_scores_in_failure (answers : gmap string Z) :
  compute_scores_in [] answers = Raise ZeroDivisionError /\
  forall catalog e,
    compute_scores_in catalog answers = Raise e ->
    (catalog = [] /\ e = ZeroDivisionError) \/
    (e = OverflowError /\
     exists pl, pl ∈ catalog /\ pl.2 <> [] /\ mean_overflows (gather answers pl.2)).
Proof.
  split; [reflexivity|]. intros catalog e.
  unfold compute_scores_in.
  destruct (mapM _ catalog) as [k|e'] eqn:Hm; simpl.
  - apply mapM_Ok, Forall2_length in Hm.
    unfold F64.float_div_int.
    destruct (Z.eqb_spec (Z.of_nat (length k)) 0) as [Hz|_]; [|discriminate].
    intros [= <-]. left. split; [|done].
    destruct catalog; [done|]. simpl in Hm. lia.
  - intros [= <-]. right.
    apply mapM_Raise in Hm as (pl & Hpl & Hs).
    pose proof (score_pillar_error _ _ _ Hs) as ->. split; [done|].
    exists pl. split; [done|].
    unfold score_pillar in Hs.
    destruct (pscore_of (gather answers pl.2)) as [s|e''] eqn:Hp; [discriminate|].
    apply pscore_of_Raise in Hp as [Hne Hov]. split; [|done].
    intros Hq. apply Hne. unfold gather. by rewrite Hq.
Qed.

(** ** The labels and values of the radar chart *)

Lemma strip_prefix_no_stop c s : c <> "."%char -> strip_prefix ". " (String c s) = None.
Proof.
  intros Hc. cbn [strip_prefix].
  destruct (Ascii.eqb_spec "." c) as [<-|_]; done.
Qed.

Lemma after_first_no_stop head rest :
  no_stop head ->
  after_first ". " (head +:+ ". " +:+ rest) = Some rest.
Proof.
  induction head as [|c head IH]; intros Hh; [done|].
  destruct Hh as [Hc Hh].
  change (String c head +:+ ". " +:+ rest) with (String c (head +:+ ". " +:+ rest)).
  cbn [after_first]. rewrite strip_prefix_no_stop by done. by apply IH.
Qed.

Lemma after_first_absent s : no_stop s -> after_first ". " s = None.
Proof.
  induction s as [|c s IH]; intros Hs; [done|].
  destruct Hs as [Hc Hs]. cbn [after_first].
  rewrite strip_prefix_no_stop by done. by apply IH.
Qed.

(** A pillar name that starts with a prefix free of full stops, followed
    by a full stop and a blank, is labelled by what follows them; a name
    without any full stop is its own label. *)
Theorem radar_label_strips_prefix (head rest : string) :
  no_stop head ->
  radar_label (head +:+ ". " +:+ rest) = rest /\
  radar_label head = head.
Proof.
  intros Hh. unfold radar_label.
  by rewrite after_first_no_stop, after_first_absent.
Qed.

Lemma radar_label_strips_prefix_witness :
  radar_labels scenario_scores =
    [ "Channel Strategy & Alignment"; "Partner Program Design";
      "Partner Enablement & Engagement"; "Sales & Operations Integration";
      "Growth Readiness" ]%string /\
  radar_label ("A" +:+ ". " +:+ "Channel Strategy & Alignment")
    = "Channel Strategy & Alignment"%string.
Proof.
  split; [reflexivity|].
  apply (radar_label_strips_prefix "A" "Channel Strategy & Alignment").
  simpl. split; [discriminate|done].
Defined.

(** The plotted polygon is closed: for a non-empty list of pillars the
    values are one more than the pillars and end on the first pillar's
    score; for no pillar there is no value. *)
Theorem radar_values_closed (pillar_scores : list pillar_score) :
  length (radar_values pillar_scores) =
    (if decide (pillar_scores = []) then 0 else S (length pillar_scores))%nat /\
  last (radar_values pillar_scores) = ps_score <$> head pillar_scores /\
  take (length pillar_scores) (radar_values pillar_scores) = ps_score <$> pillar_scores.
Proof.
  destruct pillar_scores as [|p ps]; [done|].
  rewrite decide_False by done.
  change (radar_values (p :: ps)) with ((ps_score <$> (p :: ps)) ++ [ps_score p]).
  split_and!.
  - rewrite length_app, length_fmap. simpl. lia.
  - by rewrite last_snoc.
  - apply take_app_length'. by rewrite length_fmap.
Qed.

(** ** The webhook *)

(** [to_zapier] reports success exactly when a webhook is configured and
    the response carries a status from 200 to 299; the request raising, any
    other status, or no webhook all report failure. *)
Theorem to_zapier_success (webhook_url : string) (post : post_outcome) :
  (to_zapier webhook_url post).1 = true <->
  webhook_url <> ""%string /\
  exists status_code text,
    post = Responded status_code text /\ 200 <= status_code <= 299.
Proof.
  unfold to_zapier. destruct (bool_decide_reflect (webhook_url = ""%string)) as [->|Hurl].
  - cbn [fst]. split; [done|]. by intros [? _].
  - destruct post as [status_code text|reason].
    + destruct (Z.eqb_spec (status_code / 100) 2) as [Hs|Hs]; cbn [fst].
      * split; [|done]. intros _. split; [done|].
        exists status_code, text. split; [done|].
        pose proof (Z.div_mod status_code 100 ltac:(lia)).
        pose proof (Z.mod_pos_bound status_code 100 ltac:(lia)). lia.
      * split; [done|]. intros (_ & s & t & [= <- <-] & Hr).
        exfalso. apply Hs.
        symmetry. apply (Z.div_unique status_code 100 2 (status_code - 200)); lia.
    + cbn [fst]. split; [done|]. by intros (_ & s & t & ? & _).
Qed.
